(** * ChartScript technical-analysis engine ([src/chart/chartscript/ta.ts])

    A shallow embedding of the indicator functions of [ta.ts] and the
    properties the specification states about them.

    The engine computes on JavaScript numbers.  The embedding is written once,
    over an interface [Arith] holding exactly the number operations the source
    uses, and is run at two instances:

    - [float64]: IEEE-754 binary64 (Rocq's primitive floats), the numbers
      the source really computes with;
    - [xreal]: the extended reals with a NaN, i.e. the same operations without
      rounding, used where a property is about magnitudes.

    Array positions and loop counters are integers ([nat] positions, [Z]
    counters and window lengths); a window length is an integer-valued number,
    on which [Math.floor] is the identity.  An integer that flows into the
    arithmetic is converted with [of_Z]. *)

From Stdlib Require Import ZArith List Bool Lia Floats Reals Lra.
Import ListNotations.

Set Implicit Arguments.
Set Warnings "-inexact-float".

(** ** The number interface *)

Class Arith : Type := {
  num : Type;
  NaN : num;
  Infinity : num;
  of_Z : Z -> num;
  add : num -> num -> num;
  sub : num -> num -> num;
  mul : num -> num -> num;
  div : num -> num -> num;
  neg : num -> num;
  lt : num -> num -> bool;            (* a < b *)
  le : num -> num -> bool;            (* a <= b *)
  strict_eq : num -> num -> bool;     (* a === b *)
  isNaN : num -> bool;
  Math_abs : num -> num;
  Math_sqrt : num -> num;
  Math_max : num -> num -> num;
  Math_min : num -> num -> num
}.

Declare Scope js_scope.
Delimit Scope js_scope with js.
Infix "+" := add : js_scope.
Infix "-" := sub : js_scope.
Infix "*" := mul : js_scope.
Infix "/" := div : js_scope.
Notation "- x" := (neg x) : js_scope.
Infix "<?" := lt (at level 70, no associativity) : js_scope.
Infix "<=?" := le (at level 70, no associativity) : js_scope.
Infix "===" := strict_eq (at level 70, no associativity) : js_scope.
Notation "a >? b" := (lt b a) (at level 70, no associativity, only parsing) : js_scope.
Notation "a >=? b" := (le b a) (at level 70, no associativity, only parsing) : js_scope.
Notation "# z" := (of_Z z%Z) (at level 1, format "# z") : js_scope.

(** ** Arrays and loops *)

Section Arrays.
Context {A : Arith}.

(** [a[i]] in a numeric context: a read outside the array is [undefined], which
    every arithmetic operation, comparison and [isNaN] of the source turns into
    NaN. *)
Definition get (a : list num) (i : Z) : num :=
  if (i <? 0)%Z then NaN else nth (Z.to_nat i) a NaN.

(** [for (let i = from; i < n; i++) result.push(body(i))]. *)
Definition for_push (T : Type) (from n : nat) (body : Z -> T) : list T :=
  map (fun i => body (Z.of_nat i)) (seq from (n - from)).

(** The counter values of [for (let j = from; j < len; j++)]. *)
Definition counter (from len : Z) : list Z :=
  map (fun k => (from + Z.of_nat k)%Z) (seq 0 (Z.to_nat (len - from))).

(** [a.map((v, i) => f(v, i))]. *)
Fixpoint mapi_from (T : Type) (f : num -> Z -> T) (i : Z) (a : list num) : list T :=
  match a with
  | [] => []
  | v :: rest => f v i :: mapi_from f (i + 1) rest
  end.

Definition mapi (T : Type) (f : num -> Z -> T) (a : list num) : list T :=
  mapi_from f 0 a.

End Arrays.

Notation "a .[ i ]" := (get a i%Z) (at level 1, left associativity, format "a .[ i ]") : js_scope.

Local Open Scope js_scope.

(** ** Moving averages *)

Section MovingAverages.
Context {A : Arith}.

Definition sma (source : list num) (length : Z) : list num :=
  let len := length in
  for_push 0 (List.length source) (fun i =>
    if (i <? len - 1)%Z then NaN
    else
      let sum := fold_left (fun sum j => sum + source.[i - j]) (counter 0 len) #0 in
      sum / #len).

Fixpoint ema_loop (multiplier emaVal : num) (rest : list num) : list num :=
  match rest with
  | [] => []
  | x :: rest' =>
      let emaVal' := (x - emaVal) * multiplier + emaVal in
      emaVal' :: ema_loop multiplier emaVal' rest'
  end.

Definition ema (source : list num) (length : Z) : list num :=
  let len := length in
  let multiplier := #2 / (#len + #1) in
  match source with
  | [] => []
  | x0 :: rest => x0 :: ema_loop multiplier x0 rest
  end.

(** The first loop of [rma]: it runs while [validCount < len] and returns
    [(validCount, initSum, firstValidIdx)]. *)
Fixpoint rma_seed (len : Z) (rest : list num) (i : Z)
    (validCount : Z) (initSum : num) (firstValidIdx : Z) : Z * num * Z :=
  match rest with
  | [] => (validCount, initSum, firstValidIdx)
  | x :: rest' =>
      if (validCount <? len)%Z then
        if isNaN x then rma_seed len rest' (i + 1) validCount initSum firstValidIdx
        else
          let validCount' := (validCount + 1)%Z in
          rma_seed len rest' (i + 1) validCount' (initSum + x)
            (if (validCount' =? len)%Z then i else firstValidIdx)
      else (validCount, initSum, firstValidIdx)
  end.

(** The second loop of [rma], from position [i] on. *)
Fixpoint rma_loop (alpha : num) (firstValidIdx : Z) (rest : list num) (i : Z)
    (rmaVal : num) : list num :=
  match rest with
  | [] => []
  | x :: rest' =>
      if ((firstValidIdx <? 0) || (i <? firstValidIdx))%Z then
        NaN :: rma_loop alpha firstValidIdx rest' (i + 1) rmaVal
      else if (i =? firstValidIdx)%Z then
        rmaVal :: rma_loop alpha firstValidIdx rest' (i + 1) rmaVal
      else
        let rmaVal' := if isNaN x then rmaVal
                       else alpha * x + (#1 - alpha) * rmaVal in
        rmaVal' :: rma_loop alpha firstValidIdx rest' (i + 1) rmaVal'
  end.

Definition rma (source : list num) (length : Z) : list num :=
  let len := length in
  let alpha := #1 / #len in
  let '(validCount, initSum, firstValidIdx) := rma_seed len source 0 0 #0 (-1) in
  let rmaVal := if (validCount >? 0)%Z then initSum / #validCount else NaN in
  rma_loop alpha firstValidIdx source 0 rmaVal.


Definition wma (source : list num) (length : Z) : list num :=
  let len := length in
  for_push 0 (List.length source) (fun i =>
    if (i <? len - 1)%Z then NaN
    else
      let '(sum, weightSum) :=
        fold_left (fun '(sum, weightSum) j =>
                     let weight := #(len - j) in
                     (sum + source.[i - j] * weight, weightSum + weight))
                  (counter 0 len) (#0, #0) in
      sum / weightSum).

End MovingAverages.

(** ** Series utilities used by the indicators *)

Section Utilities.
Context {A : Arith}.

Definition highest (source : list num) (length : Z) : list num :=
  for_push 0 (List.length source) (fun i =>
    if (i <? length - 1)%Z then NaN
    else
      let max := fold_left (fun max j =>
                   if negb (isNaN source.[i - j]) then Math_max max source.[i - j] else max)
                 (counter 0 length) (- Infinity) in
      if max === - Infinity then NaN else max).

Definition lowest (source : list num) (length : Z) : list num :=
  for_push 0 (List.length source) (fun i =>
    if (i <? length - 1)%Z then NaN
    else
      let min := fold_left (fun min j =>
                   if negb (isNaN source.[i - j]) then Math_min min source.[i - j] else min)
                 (counter 0 length) Infinity in
      if min === Infinity then NaN else min).

Definition crossover (s1 s2 : list num) : list bool :=
  mapi (fun v i => if (i =? 0)%Z then false
                   else (v >? s2.[i]) && (s1.[i - 1] <=? s2.[i - 1])) s1.

Definition crossunder (s1 s2 : list num) : list bool :=
  mapi (fun v i => if (i =? 0)%Z then false
                   else (v <? s2.[i]) && (s1.[i - 1] >=? s2.[i - 1])) s1.

End Utilities.

(** ** Volatility *)

Section Volatility.
Context {A : Arith}.

(** [x ** 2]. *)
Definition sq (x : num) : num := x * x.

Definition tr (high low close : list num) : list num :=
  (high.[0] - low.[0]) ::
  for_push 1 (List.length high) (fun i =>
    Math_max (Math_max (high.[i] - low.[i])
                       (Math_abs (high.[i] - close.[i - 1])))
             (Math_abs (low.[i] - close.[i - 1]))).

Definition atr (high low close : list num) (length : Z) : list num :=
  rma (tr high low close) length.

Definition stdev (source : list num) (length : Z) : list num :=
  let avg := sma source length in
  for_push 0 (List.length source) (fun i =>
    if (i <? length - 1)%Z then NaN
    else
      let sumSq := fold_left (fun sumSq j => sumSq + sq (source.[i - j] - avg.[i]))
                     (counter 0 length) #0 in
      Math_sqrt (sumSq / #length)).

Definition dev (source : list num) (length : Z) : list num :=
  let avg := sma source length in
  for_push 0 (List.length source) (fun i =>
    if (i <? length - 1)%Z then NaN
    else
      let sum := fold_left (fun sum j => sum + Math_abs (source.[i - j] - avg.[i]))
                   (counter 0 length) #0 in
      sum / #length).


Definition bb (source : list num) (length : Z) (mult : num)
  : list num * list num * list num :=
  let basis := sma source length in
  let stdDev := stdev source length in
  let upper := mapi (fun b i => b + mult * stdDev.[i]) basis in
  let lower := mapi (fun b i => b - mult * stdDev.[i]) basis in
  (basis, upper, lower).

Definition bbw (source : list num) (length : Z) (mult : num) : list num :=
  let '(basis, upper, lower) := bb source length mult in
  mapi (fun u i => if basis.[i] === #0 then #0 else (u - lower.[i]) / basis.[i]) upper.

Definition kc (high low close : list num) (length : Z) (mult : num) (atrLength : Z)
  : list num * list num * list num :=
  let basis := ema close length in
  let atrVal := atr high low close atrLength in
  let upper := mapi (fun b i => b + mult * atrVal.[i]) basis in
  let lower := mapi (fun b i => b - mult * atrVal.[i]) basis in
  (basis, upper, lower).

Definition kcw (high low close : list num) (length : Z) (mult : num) (atrLength : Z)
  : list num :=
  let '(basis, upper, lower) := kc high low close length mult atrLength in
  mapi (fun u i => if basis.[i] === #0 then #0 else (u - lower.[i]) / basis.[i]) upper.

End Volatility.

(** ** Momentum oscillators *)

Section Momentum.
Context {A : Arith}.

(** The locals [changes], [gains] and [losses] of [rsi]. *)
Definition rsi_changes (source : list num) : list num :=
  for_push 1 (List.length source) (fun i => source.[i] - source.[i - 1]).

Definition rsi_gains (source : list num) : list num :=
  map (fun c => if c >? #0 then c else #0) (rsi_changes source).

Definition rsi_losses (source : list num) : list num :=
  map (fun c => if c <? #0 then - c else #0) (rsi_changes source).

Definition rsi (source : list num) (length : Z) : list num :=
  let avgGains := rma (rsi_gains source) length in
  let avgLosses := rma (rsi_losses source) length in
  NaN ::
  for_push 0 (List.length avgGains) (fun i =>
    if avgLosses.[i] === #0 then #100
    else
      let rs := avgGains.[i] / avgLosses.[i] in
      #100 - #100 / (#1 + rs)).

(** The [rawK] series of [stoch]. *)
Definition stoch_rawK (close high low : list num) (kPeriod : Z) : list num :=
  let lowestLow := lowest low kPeriod in
  let highestHigh := highest high kPeriod in
  mapi (fun c i =>
          let range := highestHigh.[i] - lowestLow.[i] in
          if range === #0 then #50 else ((c - lowestLow.[i]) / range) * #100) close.


(** The typical price [(h + low[i] + close[i]) / 3] of [cci] and [mfi]. *)
Definition typical (high low close : list num) : list num :=
  mapi (fun h i => (h + low.[i] + close.[i]) / #3) high.

(** The literal [0.015] is written [#15 / #1000]: on binary64 the correctly
    rounded quotient is the literal's value. *)
Definition cci (high low close : list num) (length : Z) : list num :=
  let tp := typical high low close in
  let tpSma := sma tp length in
  let meanDev := dev tp length in
  mapi (fun t i =>
          if meanDev.[i] === #0 then #0
          else (t - tpSma.[i]) / ((#15 / #1000) * meanDev.[i])) tp.

(** The inner loop of [cmo] at position [i]: [(sumUp, sumDown)]. *)
Definition cmo_sums (source : list num) (length : Z) (i : Z) : num * num :=
  fold_left (fun '(sumUp, sumDown) j =>
               let change := source.[i - j] - source.[i - j - 1] in
               if change >? #0 then (sumUp + change, sumDown)
               else (sumUp, sumDown - change))
            (counter 0 length) (#0, #0).

Definition cmo (source : list num) (length : Z) : list num :=
  for_push 0 (List.length source) (fun i =>
    if (i <? length)%Z then NaN
    else
      let '(sumUp, sumDown) := cmo_sums source length i in
      let total := sumUp + sumDown in
      if total === #0 then #0 else ((sumUp - sumDown) / total) * #100).



(** The local [changes] of [tsi], which starts with a 0. *)
Definition tsi_changes (source : list num) : list num :=
  #0 :: for_push 1 (List.length source) (fun i => source.[i] - source.[i - 1]).

Definition tsi (source : list num) (shortLength longLength : Z) : list num :=
  let changes := tsi_changes source in
  let absChanges := map Math_abs changes in
  let smoothedChange := ema (ema changes longLength) shortLength in
  let smoothedAbs := ema (ema absChanges longLength) shortLength in
  mapi (fun s i => if smoothedAbs.[i] === #0 then #0 else (s / smoothedAbs.[i]) * #100)
       smoothedChange.

End Momentum.

(** ** Trend indicators: the state machines *)

Section Trend.
Context {A : Arith}.

(** A loop that carries a state and pushes one output per counter value; the
    result pairs each output with the state the iteration leaves. *)
Fixpoint run_loop (S O : Type) (step : S -> Z -> S * O) (s : S) (idx : list Z)
  : list (S * O) :=
  match idx with
  | [] => []
  | i :: rest => let so := step s i in so :: run_loop step (fst so) rest
  end.

(** The locals [prevLower], [prevUpper], [prevST] of [supertrend]. *)
Record st_state : Type := mk_st_state {
  prevLower : num;
  prevUpper : num;
  prevST : num
}.

(** One iteration of the loop of [supertrend]; the output is the pair pushed
    on [result] and [directions] (a direction is the number 1 or -1). *)
Definition supertrend_step (hl2 atrVal close : list num) (factor : num)
    (s : st_state) (i : Z) : st_state * (num * Z) :=
  if isNaN atrVal.[i] then (s, (NaN, 1%Z))
  else
    let upper := hl2.[i] + factor * atrVal.[i] in
    let lower := hl2.[i] - factor * atrVal.[i] in
    let '(lower, upper) :=
      if negb (isNaN (prevLower s)) && negb (isNaN (prevUpper s)) then
        (if (lower >? prevLower s) || (close.[i - 1] <? prevLower s)
         then lower else prevLower s,
         if (upper <? prevUpper s) || (close.[i - 1] >? prevUpper s)
         then upper else prevUpper s)
      else (lower, upper) in
    let dir :=
      if isNaN (prevST s) then 1%Z
      else if prevST s === prevUpper s then (if close.[i] >? upper then (-1)%Z else 1%Z)
      else (if close.[i] <? lower then 1%Z else (-1)%Z) in
    let st := if (dir =? -1)%Z then lower else upper in
    (mk_st_state lower upper st, (st, dir)).

Definition supertrend_trace (high low close : list num) (factor : num) (atrPeriod : Z)
  : list (st_state * (num * Z)) :=
  let hl2 := mapi (fun h i => (h + low.[i]) / #2) high in
  let atrVal := atr high low close atrPeriod in
  run_loop (supertrend_step hl2 atrVal close factor)
           (mk_st_state NaN NaN NaN) (counter 0 (Z.of_nat (List.length high))).

Definition supertrend (high low close : list num) (factor : num) (atrPeriod : Z)
  : list num * list Z :=
  let t := supertrend_trace high low close factor atrPeriod in
  (map (fun so => fst (snd so)) t, map (fun so => snd (snd so)) t).

(** The locals [af], [ep], [isLong], [sarVal] of [sar]. *)
Record sar_state : Type := mk_sar_state {
  af : num;
  ep : num;
  isLong : bool;
  sarVal : num
}.

Definition sar_step (high low : list num) (start inc maxAF : num)
    (s : sar_state) (i : Z) : sar_state * num :=
  if (i =? 0)%Z then (s, sarVal s)
  else
    let sarVal0 := sarVal s + af s * (ep s - sarVal s) in
    let s' :=
      if isLong s then
        let sarVal1 := Math_min (Math_min sarVal0 low.[i - 1])
                                (if (i >? 1)%Z then low.[i - 2] else low.[i - 1]) in
        if low.[i] <? sarVal1 then mk_sar_state start low.[i] false (ep s)
        else if high.[i] >? ep s
             then mk_sar_state (Math_min (af s + inc) maxAF) high.[i] true sarVal1
             else mk_sar_state (af s) (ep s) true sarVal1
      else
        let sarVal1 := Math_max (Math_max sarVal0 high.[i - 1])
                                (if (i >? 1)%Z then high.[i - 2] else high.[i - 1]) in
        if high.[i] >? sarVal1 then mk_sar_state start high.[i] true (ep s)
        else if low.[i] <? ep s
             then mk_sar_state (Math_min (af s + inc) maxAF) low.[i] false sarVal1
             else mk_sar_state (af s) (ep s) false sarVal1 in
    (s', sarVal s').

Definition sar_trace (high low : list num) (start inc maxAF : num)
  : list (sar_state * num) :=
  run_loop (sar_step high low start inc maxAF)
           (mk_sar_state start low.[0] true low.[0])
           (counter 0 (Z.of_nat (List.length high))).

Definition sar (high low : list num) (start inc maxAF : num) : list num :=
  map snd (sar_trace high low start inc maxAF).

Record IchimokuResult : Type := mk_IchimokuResult {
  tenkan : list num;
  kijun : list num;
  senkouA : list num;
  senkouB : list num;
  chikou : list num
}.

Definition donchian (h l : list num) (len : Z) : list num :=
  let hh := highest h len in
  let ll := lowest l len in
  mapi (fun hv i => (hv + ll.[i]) / #2) hh.

(** [ichimoku] with an integer [displacement].  [Array(displacement)] throws a
    RangeError on a negative length, which is the result [None]. *)
Definition ichimoku (high low close : list num)
    (conversionPeriods basePeriods laggingSpan2Periods displacement : Z)
  : option IchimokuResult :=
  let tenkan := donchian high low conversionPeriods in
  let kijun := donchian high low basePeriods in
  let senkouA := mapi (fun t i => (t + kijun.[i]) / #2) tenkan in
  let senkouB := donchian high low laggingSpan2Periods in
  if (displacement <? 0)%Z then None
  else
    let chikou := skipn (Z.to_nat displacement) close
                  ++ repeat NaN (Z.to_nat displacement) in
    Some (mk_IchimokuResult tenkan kijun senkouA senkouB chikou).

End Trend.

(** ** Regression and statistics over a window *)

Section Statistics.
Context {A : Arith}.

(** Two host functions whose results ECMAScript leaves to the implementation:
    [Math.exp] (an approximation) and [Array.prototype.sort] with the
    comparator [(a, b) => a - b] (the order is implementation-defined once a
    NaN makes the comparator inconsistent). *)
Variable Math_exp : num -> num.
Variable Array_sort : list num -> list num.








Definition linreg (source : list num) (length : Z) (offset : num) : list num :=
  for_push 0 (List.length source) (fun i =>
    if (i <? length - 1)%Z then NaN
    else
      let '(sumX, sumY, sumXY, sumX2) :=
        fold_left (fun '(sumX, sumY, sumXY, sumX2) j =>
                     let x := #j in
                     let y := source.[i - (length - 1 - j)] in
                     (sumX + x, sumY + y, sumXY + x * y, sumX2 + x * x))
                  (counter 0 length) (#0, #0, #0, #0) in
      let slope := (#length * sumXY - sumX * sumY) / (#length * sumX2 - sumX * sumX) in
      let intercept := (sumY - slope * sumX) / #length in
      intercept + slope * (#(length - 1) - offset)).


Definition percentrank (source : list num) (length : Z) : list num :=
  for_push 0 (List.length source) (fun i =>
    if (i <? length - 1)%Z then NaN
    else
      let count := fold_left (fun count j =>
                     if source.[i - j] <=? source.[i] then (count + 1)%Z else count)
                   (counter 1 length) 0%Z in
      (#count / #(length - 1)) * #100).

End Statistics.


(** ** The other moving averages and oscillators *)

Section MoreIndicators.
Context {A : Arith}.



(** [Math.floor(Math.sqrt(length))] of [hma], for a length that is not
    negative: a host function of the integer length.  [Math.floor(length / 2)]
    is the integer quotient. *)
Variable Math_floor_sqrt : Z -> Z.

Definition hma (source : list num) (length : Z) : list num :=
  let halfLen := (length / 2)%Z in
  let sqrtLen := Math_floor_sqrt length in
  let wma1 := wma source halfLen in
  let wma2 := wma source length in
  let diff := mapi (fun v i => #2 * v - wma2.[i]) wma1 in
  wma diff sqrtLen.


Definition roc (source : list num) (length : Z) : list num :=
  for_push 0 (List.length source) (fun i =>
    if (i <? length)%Z || (source.[i - length] === #0) then NaN
    else ((source.[i] - source.[i - length]) / source.[i - length]) * #100).

Definition mom (source : list num) (length : Z) : list num :=
  mapi (fun s i => if (i <? length)%Z then NaN else s - source.[i - length]) source.




End MoreIndicators.

(** ** The other series utilities *)

Section MoreUtilities.
Context {A : Arith}.

(** [a.map((v, i) => f(v, i))] on an array of booleans. *)
Fixpoint mapb_from (T : Type) (f : bool -> Z -> T) (i : Z) (a : list bool) : list T :=
  match a with
  | [] => []
  | v :: rest => f v i :: mapb_from f (i + 1) rest
  end.

Definition mapb (T : Type) (f : bool -> Z -> T) (a : list bool) : list T :=
  mapb_from f 0 a.

(** [a[i]] of an array of booleans where a boolean is wanted: [undefined] is
    falsy. *)
Definition getb (a : list bool) (i : Z) : bool :=
  if (i <? 0)%Z then false else nth (Z.to_nat i) a false.

(** The loop of [barssince] from the local [count] on. *)
Fixpoint barssince_loop (count : num) (rest : list bool) : list num :=
  match rest with
  | [] => []
  | c :: rest' =>
      let count' := if c then #0
                    else if negb (isNaN count) then count + #1 else count in
      count' :: barssince_loop count' rest'
  end.

Definition barssince (condition : list bool) : list num :=
  barssince_loop NaN condition.

(** The loop of [valuewhen] from bar [i] on.  [trueIndices[k]] outside the
    array is [undefined], and so is [source[undefined]]: NaN as a number. *)
Fixpoint valuewhen_loop (source : list num) (occurrence : Z)
    (trueIndices : list Z) (i : Z) (rest : list bool) : list num :=
  match rest with
  | [] => []
  | c :: rest' =>
      let trueIndices' := if c then trueIndices ++ [i] else trueIndices in
      let n := Z.of_nat (List.length trueIndices') in
      (if (n >? occurrence)%Z
       then match nth_error trueIndices' (Z.to_nat (n - 1 - occurrence)) with
            | Some k => source.[k]
            | None => NaN
            end
       else NaN)
      :: valuewhen_loop source occurrence trueIndices' (i + 1) rest'
  end.

Definition valuewhen (condition : list bool) (source : list num) (occurrence : Z)
  : list num :=
  valuewhen_loop source occurrence [] 0 condition.

Definition cross (s1 s2 : list num) : list bool :=
  let over := crossover s1 s2 in
  let under := crossunder s1 s2 in
  mapb (fun o i => o || getb under i) over.

(** The loop of [rising] returns [false] at the first bar that did not rise
    and [true] after the last one. *)
Definition rising (source : list num) (length : Z) : list bool :=
  mapi (fun _ i =>
          if (i <? length)%Z then false
          else forallb (fun j => negb (source.[i - j + 1] <=? source.[i - j]))
                       (counter 1 (length + 1))) source.

Definition falling (source : list num) (length : Z) : list bool :=
  mapi (fun _ i =>
          if (i <? length)%Z then false
          else forallb (fun j => negb (source.[i - j + 1] >=? source.[i - j]))
                       (counter 1 (length + 1))) source.

Definition change (source : list num) (length : Z) : list num :=
  mapi (fun s i => if (i <? length)%Z then NaN else s - source.[i - length]) source.

(** The callback of [cum] from the local [sum] on. *)
Fixpoint cum_loop (sum : num) (rest : list num) : list num :=
  match rest with
  | [] => []
  | s :: rest' => let sum' := sum + s in sum' :: cum_loop sum' rest'
  end.

Definition cum (source : list num) : list num := cum_loop #0 source.

Definition vwap (high low close volume : list num) : list num :=
  let tp := typical high low close in
  let tpVol := mapi (fun t i => t * volume.[i]) tp in
  let cumTpVol := cum tpVol in
  let cumVol := cum volume in
  mapi (fun c i => if cumVol.[i] === #0 then NaN else c / cumVol.[i]) cumTpVol.

(** [result[k] = v] for a [k] below the array's length, which the loop bounds
    of [pivothigh] and [pivotlow] ensure; a negative [k] names a property and
    leaves the elements alone. *)
Definition set_at (result : list num) (k : Z) (v : num) : list num :=
  if (k <? 0)%Z then result
  else firstn (Z.to_nat k) result ++ v :: skipn (S (Z.to_nat k)) result.

(** The test of [pivothigh] at bar [i]: the two loops that clear [isPivot]. *)
Definition pivothigh_test (source : list num) (leftBars rightBars : Z) (i : Z) : bool :=
  let isPivot := forallb (fun j => negb (source.[i - j] >=? source.[i]))
                         (counter 1 (leftBars + 1)) in
  if isPivot
  then forallb (fun j => negb (source.[i + j] >=? source.[i])) (counter 1 (rightBars + 1))
  else false.

Definition pivothigh (source : list num) (leftBars rightBars : Z) : list num :=
  fold_left (fun result i =>
               if pivothigh_test source leftBars rightBars i
               then set_at result (i + rightBars) source.[i] else result)
            (counter leftBars (Z.of_nat (List.length source) - rightBars))
            (repeat NaN (List.length source)).

Definition pivotlow_test (source : list num) (leftBars rightBars : Z) (i : Z) : bool :=
  let isPivot := forallb (fun j => negb (source.[i - j] <=? source.[i]))
                         (counter 1 (leftBars + 1)) in
  if isPivot
  then forallb (fun j => negb (source.[i + j] <=? source.[i])) (counter 1 (rightBars + 1))
  else false.

Definition pivotlow (source : list num) (leftBars rightBars : Z) : list num :=
  fold_left (fun result i =>
               if pivotlow_test source leftBars rightBars i
               then set_at result (i + rightBars) source.[i] else result)
            (counter leftBars (Z.of_nat (List.length source) - rightBars))
            (repeat NaN (List.length source)).

(** The inner loop of [highestbars] at bar [i]: [(maxIdx, max)]. *)
Definition highestbars_scan (source : list num) (length : Z) (i : Z) : Z * num :=
  fold_left (fun '(maxIdx, max) j =>
               if source.[i - j] >? max then (j, source.[i - j]) else (maxIdx, max))
            (counter 1 length) (0%Z, source.[i]).

Definition highestbars (source : list num) (length : Z) : list num :=
  for_push 0 (List.length source) (fun i =>
    if (i <? length - 1)%Z then NaN
    else - #(fst (highestbars_scan source length i))).

Definition lowestbars_scan (source : list num) (length : Z) (i : Z) : Z * num :=
  fold_left (fun '(minIdx, min) j =>
               if source.[i - j] <? min then (j, source.[i - j]) else (minIdx, min))
            (counter 1 length) (0%Z, source.[i]).

Definition lowestbars (source : list num) (length : Z) : list num :=
  for_push 0 (List.length source) (fun i =>
    if (i <? length - 1)%Z then NaN
    else - #(fst (lowestbars_scan source length i))).

End MoreUtilities.
(** ** The binary64 instance *)

Module F64.

Definition of_Z (z : Z) : float :=
  SF2Prim (binary_normalize prec emax z 0 false).

(** [Math.max] and [Math.min] return NaN when an argument is NaN and order
    [-0] below [+0]. *)
Definition Math_max (a b : float) : float :=
  if (PrimFloat.is_nan a || PrimFloat.is_nan b)%bool then PrimFloat.nan
  else if PrimFloat.ltb a b then b
  else if PrimFloat.ltb b a then a
  else if PrimFloat.get_sign a then b else a.

Definition Math_min (a b : float) : float :=
  if (PrimFloat.is_nan a || PrimFloat.is_nan b)%bool then PrimFloat.nan
  else if PrimFloat.ltb a b then a
  else if PrimFloat.ltb b a then b
  else if PrimFloat.get_sign a then a else b.

End F64.

#[export] Instance float64 : Arith := {|
  num := float;
  NaN := PrimFloat.nan;
  Infinity := PrimFloat.infinity;
  of_Z := F64.of_Z;
  add := PrimFloat.add;
  sub := PrimFloat.sub;
  mul := PrimFloat.mul;
  div := PrimFloat.div;
  neg := PrimFloat.opp;
  lt := PrimFloat.ltb;
  le := PrimFloat.leb;
  strict_eq := PrimFloat.eqb;
  isNaN := PrimFloat.is_nan;
  Math_abs := PrimFloat.abs;
  Math_sqrt := PrimFloat.sqrt;
  Math_max := F64.Math_max;
  Math_min := F64.Math_min
|}.



(** ** The extended reals: the same operations without rounding

    A number is NaN, an infinity or a real; the two zeros of binary64 are one
    real 0, taken as [+0] where a sign is needed (division by 0). *)

Module XR.

Inductive ext : Type :=
| XNaN : ext
| XInf (negative : bool) : ext
| XFin (r : R) : ext.

Definition Rltb (a b : R) : bool := if Rlt_dec a b then true else false.
Definition Reqb (a b : R) : bool := if Req_dec_T a b then true else false.

Definition add (a b : ext) : ext :=
  match a, b with
  | XNaN, _ | _, XNaN => XNaN
  | XInf s, XInf s' => if Bool.eqb s s' then XInf s else XNaN
  | XInf s, XFin _ | XFin _, XInf s => XInf s
  | XFin x, XFin y => XFin (x + y)
  end.

Definition neg (a : ext) : ext :=
  match a with
  | XNaN => XNaN
  | XInf s => XInf (negb s)
  | XFin x => XFin (- x)
  end.

Definition sub (a b : ext) : ext := add a (neg b).

Definition mul (a b : ext) : ext :=
  match a, b with
  | XNaN, _ | _, XNaN => XNaN
  | XInf s, XInf s' => XInf (xorb s s')
  | XInf s, XFin x | XFin x, XInf s =>
      if Reqb x 0 then XNaN else XInf (xorb s (Rltb x 0))
  | XFin x, XFin y => XFin (x * y)
  end.

Definition div (a b : ext) : ext :=
  match a, b with
  | XNaN, _ | _, XNaN => XNaN
  | XInf _, XInf _ => XNaN
  | XInf s, XFin y => XInf (xorb s (Rltb y 0))
  | XFin _, XInf _ => XFin 0
  | XFin x, XFin y =>
      if Reqb y 0 then (if Reqb x 0 then XNaN else XInf (Rltb x 0))
      else XFin (x / y)
  end.

Definition lt (a b : ext) : bool :=
  match a, b with
  | XNaN, _ | _, XNaN => false
  | XInf s, XInf s' => s && negb s'
  | XInf s, XFin _ => s
  | XFin _, XInf s => negb s
  | XFin x, XFin y => Rltb x y
  end.

Definition isNaN (a : ext) : bool :=
  match a with XNaN => true | _ => false end.

Definition le (a b : ext) : bool :=
  negb (isNaN a) && negb (isNaN b) && negb (lt b a).

Definition strict_eq (a b : ext) : bool :=
  negb (isNaN a) && negb (isNaN b) && negb (lt a b) && negb (lt b a).

Definition Math_abs (a : ext) : ext :=
  match a with
  | XNaN => XNaN
  | XInf _ => XInf false
  | XFin x => XFin (Rabs x)
  end.

Definition Math_sqrt (a : ext) : ext :=
  match a with
  | XNaN => XNaN
  | XInf s => if s then XNaN else XInf false
  | XFin x => if Rltb x 0 then XNaN else XFin (sqrt x)
  end.

Definition Math_max (a b : ext) : ext :=
  if isNaN a || isNaN b then XNaN else if lt a b then b else a.

Definition Math_min (a b : ext) : ext :=
  if isNaN a || isNaN b then XNaN else if lt b a then b else a.


End XR.

Abbreviation XNaN := XR.XNaN.
Abbreviation XInf := XR.XInf.
Abbreviation XFin := XR.XFin.

#[export] Instance xreal : Arith := {|
  num := XR.ext;
  NaN := XR.XNaN;
  Infinity := XR.XInf false;
  of_Z := fun z => XR.XFin (IZR z);
  add := XR.add;
  sub := XR.sub;
  mul := XR.mul;
  div := XR.div;
  neg := XR.neg;
  lt := XR.lt;
  le := XR.le;
  strict_eq := XR.strict_eq;
  isNaN := XR.isNaN;
  Math_abs := XR.Math_abs;
  Math_sqrt := XR.Math_sqrt;
  Math_max := XR.Math_max;
  Math_min := XR.Math_min
|}.

(** The order of binary64 values, read off their sign, exponent and mantissa. *)

Module F64Key.

Definition rank (x : spec_float) : Z * Z * Z :=
  match x with
  | S754_nan => (0, 0, 0)
  | S754_zero _ => (0, 0, 0)
  | S754_infinity s => (if s then -2 else 2, 0, 0)
  | S754_finite s m e => if s then (-1, - e, Z.neg m) else (1, e, Z.pos m)
  end%Z.

Definition lexlt (t u : Z * Z * Z) : Prop :=
  let '(a1, b1, c1) := t in
  let '(a2, b2, c2) := u in
  (a1 < a2 \/ (a1 = a2 /\ (b1 < b2 \/ (b1 = b2 /\ c1 < c2))))%Z.

Definition is_nan_sf (x : spec_float) : bool :=
  match x with S754_nan => true | _ => false end.

Definition key (x : float) : Z * Z * Z := rank (Prim2SF x).

End F64Key.

(** ** The laws of comparison the proofs use

    They hold of binary64 ([float64_laws]) and of the extended reals
    ([xreal_laws]); no law speaks of rounding. *)

Class ArithLaws (A : Arith) : Prop := {
  isNaN_NaN : isNaN NaN = true;
  strict_eq_refl : forall a, isNaN a = false -> (a === a) = true;
  strict_eq_NaN_l : forall a b, isNaN a = true -> (a === b) = false;
  lt_NaN_l : forall a b, isNaN a = true -> (a <? b) = false;
  lt_NaN_r : forall a b, isNaN b = true -> (a <? b) = false;
  lt_irrefl : forall a, (a <? a) = false;
  lt_trans : forall a b c, (a <? b) = true -> (b <? c) = true -> (a <? c) = true;
  lt_cotrans : forall a b c,
    (a <? c) = true -> isNaN b = false -> (a <? b) = true \/ (b <? c) = true;
  le_spec : forall a b,
    (a <=? b) = negb (isNaN a) && negb (isNaN b) && negb (b <? a);
  Math_min_NaN : forall a b, isNaN a || isNaN b = true -> Math_min a b = NaN;
  Math_min_cases : forall a b,
    isNaN a || isNaN b = false -> Math_min a b = a \/ Math_min a b = b;
  Math_min_le_l : forall a b, (a <? Math_min a b) = false;
  Math_min_le_r : forall a b, (b <? Math_min a b) = false;
  Math_max_NaN : forall a b, isNaN a || isNaN b = true -> Math_max a b = NaN;
  Math_max_cases : forall a b,
    isNaN a || isNaN b = false -> Math_max a b = a \/ Math_max a b = b;
  Math_max_ge_l : forall a b, (Math_max a b <? a) = false;
  Math_max_ge_r : forall a b, (Math_max a b <? b) = false
}.

(** ** Definitions used to state the properties *)

Section WilderSpec.
Context {A : Arith}.

(** A sample is valid when it is not NaN. *)
Definition valid (x : num) : bool := negb (isNaN x).

Definition count_valid (l : list num) : nat := List.length (filter valid l).

(** The first [n] valid samples, in order. *)
Definition first_valid (n : nat) (l : list num) : list num := firstn n (filter valid l).

(** [k] is the position of the [n]-th valid sample of [source]. *)
Definition seed_index (source : list num) (n k : nat) : Prop :=
  (exists x, nth_error source k = Some x /\ isNaN x = false) /\
  count_valid (firstn (S k) source) = n.

(** The arithmetic mean, summed from the left. *)
Definition mean (l : list num) : num :=
  fold_left add l #0 / #(Z.of_nat (List.length l)).

(** One step of Wilder's recurrence. *)
Definition wilder_step (length : Z) (x prev : num) : num :=
  (#1 / #length) * x + (#1 - #1 / #length) * prev.

End WilderSpec.


Section WarmupSpec.
Context {A : Arith}.



End WarmupSpec.

Section SuperTrendSpec.
Context {A : Arith}.


(** The number of positions at which a series of directions changes. *)
Fixpoint flips (directions : list Z) : nat :=
  match directions with
  | d0 :: ((d1 :: _) as rest) => ((if (d0 =? d1)%Z then 0 else 1) + flips rest)%nat
  | _ => 0%nat
  end.

End SuperTrendSpec.

Section FinitenessSpec.
Context {A : Arith}.





End FinitenessSpec.



Section RsiSpec.
Context {A : Arith}.


End RsiSpec.

Section RecursiveFamilySpec.
Context {A : Arith}.


End RecursiveFamilySpec.

Section SarSpec.
Context {A : Arith}.

(** The clamp property of the specification at bar [j], for the regime [s]
    and the value [v] the bar leaves: while long the SAR is not above the
    lows of the two bars before, while short it is not below their highs. *)
Definition sar_clamped (high low : list num) (j : Z) (s : sar_state) (v : num) : Prop :=
  if isLong s
  then (low.[j - 1] <? v) = false /\ (low.[j - 2] <? v) = false
  else (v <? high.[j - 1]) = false /\ (v <? high.[j - 2]) = false.

(** The extreme point after bar [j]: while long it is below neither the high
    of the bar nor (from bar 2 on) the high of the bar before; while short it
    is above neither the low of the bar nor the low of the bar before. *)
Definition ep_covers (high low : list num) (j : Z) (s : sar_state) : Prop :=
  if isLong s
  then (ep s <? high.[j]) = false /\ ((2 <= j)%Z -> (ep s <? high.[j - 1]) = false)
  else (low.[j] <? ep s) = false /\ (low.[j - 1] <? ep s) = false.

End SarSpec.

(** ** How NaN travels through the arithmetic

    NaN is absorbing for the four operations and [0 / 0] is NaN.  The laws
    hold of binary64 ([float64_nan_laws]) and of the extended reals
    ([xreal_nan_laws]). *)

Class NaNLaws (A : Arith) : Prop := {
  add_NaN_l : forall a b, isNaN a = true -> isNaN (a + b) = true;
  add_NaN_r : forall a b, isNaN b = true -> isNaN (a + b) = true;
  sub_NaN_l : forall a b, isNaN a = true -> isNaN (a - b) = true;
  sub_NaN_r : forall a b, isNaN b = true -> isNaN (a - b) = true;
  mul_NaN_l : forall a b, isNaN a = true -> isNaN (a * b) = true;
  mul_NaN_r : forall a b, isNaN b = true -> isNaN (a * b) = true;
  div_NaN_l : forall a b, isNaN a = true -> isNaN (a / b) = true;
  div_NaN_r : forall a b, isNaN b = true -> isNaN (a / b) = true;
  zero_div_zero : isNaN (#0 / #0) = true
}.

(** ** The infinities in the order

    The initial values of [highest] and [lowest] are numbers, not NaN, and a
    number strictly below another is not [===] to it.  The laws hold of
    binary64 ([float64_extreme_laws]) and of the extended reals
    ([xreal_extreme_laws]). *)

Class ExtremeLaws (A : Arith) : Prop := {
  neg_Infinity_valid : isNaN (- Infinity) = false;
  Infinity_valid : isNaN Infinity = false;
  strict_eq_lt : forall a b, (a <? b) = true -> (a === b) = false /\ (b === a) = false
}.

(** ** Definitions used to state the properties of the utilities *)

(** The bars before [n] at which the condition holds, oldest first. *)
Definition true_bars (condition : list bool) (n : nat) : list nat :=
  filter (fun j => nth j condition false) (seq 0 n).

(** A real between [lo] and [hi], and a NaN or such a real. *)
Definition within (lo hi : R) (x : @num xreal) : Prop :=
  exists r : R, x = XFin r /\ (lo <= r <= hi)%R.

Definition NaN_or_within (lo hi : R) (x : @num xreal) : Prop :=
  x = XNaN \/ within lo hi x.
(** * Proofs *)

(** ** binary64 satisfies the laws *)

Module F64Order.
Import F64Key.

Lemma SFcompare_None x y :
  SFcompare x y = None <-> is_nan_sf x = true \/ is_nan_sf y = true.
Proof.
  destruct x as [ [|] | [|] | | [|] mx ex ], y as [ [|] | [|] | | [|] my ey ]; simpl;
    split; intros H; try discriminate; try tauto; try (destruct H; discriminate).
Qed.

Ltac lex_solve :=
  split; intros H0;
  [ try discriminate; repeat split; lia
  | destruct H0 as (_ & _ & H0); try reflexivity; exfalso; lia ].

Lemma SFcompare_Lt x y :
  SFcompare x y = Some Lt <->
  is_nan_sf x = false /\ is_nan_sf y = false /\ lexlt (rank x) (rank y).
Proof.
  destruct x as [ [|] | [|] | | [|] mx ex ], y as [ [|] | [|] | | [|] my ey ]; simpl;
    try (split; [ intros H0; try discriminate; repeat split; lia
                | intros (H1 & H2 & H3); try discriminate; try reflexivity; lia ]).
  - change (PosDef.Pos.compare_cont Eq mx my) with (Pos.compare mx my).
    destruct (Z.compare_spec ex ey) as [E|E|E];
      [ subst; destruct (Pos.compare_spec mx my); simpl | | ]; lex_solve.
  - change (PosDef.Pos.compare_cont Eq mx my) with (Pos.compare mx my).
    destruct (Z.compare_spec ex ey) as [E|E|E];
      [ subst; destruct (Pos.compare_spec mx my); simpl | | ]; lex_solve.
Qed.

Lemma is_nan_Prim2SF x : is_nan_sf (Prim2SF x) = PrimFloat.is_nan x.
Proof.
  unfold Prim2SF. destruct (PrimFloat.is_nan x); [reflexivity|].
  destruct (PrimFloat.is_zero x); [reflexivity|].
  destruct (PrimFloat.is_infinity x); [reflexivity|].
  destruct (Z.frexp x) as [r e].
  destruct (shr_fexp _ _ _ _ _) as [shr e'].
  destruct (shr_m shr); reflexivity.
Qed.

Lemma ltb_iff x y :
  PrimFloat.ltb x y = true <->
  PrimFloat.is_nan x = false /\ PrimFloat.is_nan y = false /\ lexlt (key x) (key y).
Proof.
  rewrite ltb_spec. unfold SFltb, key. rewrite <- !is_nan_Prim2SF.
  rewrite <- SFcompare_Lt.
  destruct (SFcompare (Prim2SF x) (Prim2SF y)) as [[| |]|]; split; congruence.
Qed.

Lemma ltb_false_iff x y :
  PrimFloat.ltb x y = false <->
  PrimFloat.is_nan x = true \/ PrimFloat.is_nan y = true \/ ~ lexlt (key x) (key y).
Proof.
  destruct (PrimFloat.ltb x y) eqn:E.
  - apply ltb_iff in E. destruct E as (E1 & E2 & E3). split; [discriminate|].
    intros [H|[H|H]]; [congruence | congruence | tauto].
  - split; [intros _|reflexivity].
    destruct (PrimFloat.is_nan x) eqn:Ex; [tauto|].
    destruct (PrimFloat.is_nan y) eqn:Ey; [tauto|].
    right; right. intros H. 
    assert (PrimFloat.ltb x y = true) by (apply ltb_iff; tauto). congruence.
Qed.

Lemma lexlt_irrefl t : ~ lexlt t t.
Proof. destruct t as [[a b] c]. unfold lexlt. lia. Qed.

Lemma lexlt_trans t u v : lexlt t u -> lexlt u v -> lexlt t v.
Proof. destruct t as [[a b] c], u as [[a' b'] c'], v as [[a2 b2] c2]. unfold lexlt. lia. Qed.

Lemma lexlt_cotrans t u v : lexlt t v -> lexlt t u \/ lexlt u v.
Proof. destruct t as [[a b] c], u as [[a' b'] c'], v as [[a2 b2] c2]. unfold lexlt. lia. Qed.

Lemma SFcompare_Gt x y :
  SFcompare x y = Some Gt <->
  is_nan_sf x = false /\ is_nan_sf y = false /\ lexlt (rank y) (rank x).
Proof.
  destruct x as [ [|] | [|] | | [|] mx ex ], y as [ [|] | [|] | | [|] my ey ]; simpl;
    try (split; [ intros H0; try discriminate; repeat split; lia
                | intros (H1 & H2 & H3); try discriminate; try reflexivity; lia ]).
  - change (PosDef.Pos.compare_cont Eq mx my) with (Pos.compare mx my).
    destruct (Z.compare_spec ex ey) as [E|E|E];
      [ subst; destruct (Pos.compare_spec mx my); simpl | | ]; lex_solve.
  - change (PosDef.Pos.compare_cont Eq mx my) with (Pos.compare mx my).
    destruct (Z.compare_spec ex ey) as [E|E|E];
      [ subst; destruct (Pos.compare_spec mx my); simpl | | ]; lex_solve.
Qed.

Lemma leb_iff x y :
  PrimFloat.leb x y = true <->
  PrimFloat.is_nan x = false /\ PrimFloat.is_nan y = false /\ ~ lexlt (key y) (key x).
Proof.
  rewrite leb_spec. unfold SFleb, key. rewrite <- !is_nan_Prim2SF.
  pose proof (SFcompare_Lt (Prim2SF x) (Prim2SF y)) as HL.
  pose proof (SFcompare_Gt (Prim2SF x) (Prim2SF y)) as HG.
  pose proof (SFcompare_None (Prim2SF x) (Prim2SF y)) as HN.
  pose proof (@lexlt_irrefl (rank (Prim2SF x))) as HI.
  pose proof (@lexlt_trans (rank (Prim2SF x)) (rank (Prim2SF y)) (rank (Prim2SF x))) as HT.
  destruct (is_nan_sf (Prim2SF x)), (is_nan_sf (Prim2SF y)),
    (SFcompare (Prim2SF x) (Prim2SF y)) as [[| |]|];
    intuition (try discriminate; try congruence).
Qed.

Lemma leb_eq x y :
  PrimFloat.leb x y =
  negb (PrimFloat.is_nan x) && negb (PrimFloat.is_nan y) && negb (PrimFloat.ltb y x).
Proof.
  apply eq_true_iff_eq. rewrite leb_iff, !andb_true_iff, !negb_true_iff, ltb_false_iff.
  destruct (PrimFloat.is_nan x), (PrimFloat.is_nan y); intuition congruence.
Qed.

Lemma eqb_nan_l x y : PrimFloat.is_nan x = true -> PrimFloat.eqb x y = false.
Proof.
  intros H. rewrite eqb_spec. unfold SFeqb. rewrite <- is_nan_Prim2SF in H.
  destruct (Prim2SF x); try discriminate. reflexivity.
Qed.

Lemma eqb_refl x : PrimFloat.is_nan x = false -> PrimFloat.eqb x x = true.
Proof. unfold PrimFloat.is_nan. destruct (PrimFloat.eqb x x); [reflexivity|discriminate]. Qed.

Lemma ltb_nan_l x y : PrimFloat.is_nan x = true -> PrimFloat.ltb x y = false.
Proof. intros H. apply ltb_false_iff. tauto. Qed.

Lemma ltb_nan_r x y : PrimFloat.is_nan y = true -> PrimFloat.ltb x y = false.
Proof. intros H. apply ltb_false_iff. tauto. Qed.

Lemma ltb_irrefl x : PrimFloat.ltb x x = false.
Proof. apply ltb_false_iff. right; right. apply lexlt_irrefl. Qed.

Lemma ltb_trans x y z :
  PrimFloat.ltb x y = true -> PrimFloat.ltb y z = true -> PrimFloat.ltb x z = true.
Proof.
  rewrite !ltb_iff. intros (A1 & A2 & A3) (B1 & B2 & B3).
  repeat split; trivial. eapply lexlt_trans; eassumption.
Qed.

Lemma ltb_cotrans x y z :
  PrimFloat.ltb x z = true -> PrimFloat.is_nan y = false ->
  PrimFloat.ltb x y = true \/ PrimFloat.ltb y z = true.
Proof.
  rewrite !ltb_iff. intros (A1 & A2 & A3) Hy.
  destruct (@lexlt_cotrans (key x) (key y) (key z) A3); [left|right]; tauto.
Qed.

Lemma ltb_asym x y : PrimFloat.ltb x y = true -> PrimFloat.ltb y x = false.
Proof.
  intros H. destruct (PrimFloat.ltb y x) eqn:E; [|reflexivity].
  pose proof (@ltb_trans _ _ _ H E) as K. rewrite ltb_irrefl in K. discriminate.
Qed.

End F64Order.

Lemma float64_laws : ArithLaws float64.
Proof.
  constructor; cbn [isNaN NaN lt le strict_eq Math_min Math_max float64 num].
  - reflexivity.
  - apply F64Order.eqb_refl.
  - apply F64Order.eqb_nan_l.
  - apply F64Order.ltb_nan_l.
  - apply F64Order.ltb_nan_r.
  - apply F64Order.ltb_irrefl.
  - apply F64Order.ltb_trans.
  - apply F64Order.ltb_cotrans.
  - apply F64Order.leb_eq.
  - intros a b H. unfold F64.Math_min. rewrite H. reflexivity.
  - intros a b H. unfold F64.Math_min. rewrite H.
    destruct (PrimFloat.ltb a b); [tauto|]. destruct (PrimFloat.ltb b a); [tauto|].
    destruct (get_sign a); tauto.
  - intros a b. unfold F64.Math_min.
    destruct (PrimFloat.is_nan a || PrimFloat.is_nan b)%bool; [apply F64Order.ltb_nan_r; reflexivity|].
    destruct (PrimFloat.ltb a b) eqn:E1; [apply F64Order.ltb_irrefl|].
    destruct (PrimFloat.ltb b a) eqn:E2; [exact E1|].
    destruct (get_sign a); [apply F64Order.ltb_irrefl|exact E1].
  - intros a b. unfold F64.Math_min.
    destruct (PrimFloat.is_nan a || PrimFloat.is_nan b)%bool; [apply F64Order.ltb_nan_r; reflexivity|].
    destruct (PrimFloat.ltb a b) eqn:E1; [apply F64Order.ltb_asym; exact E1|].
    destruct (PrimFloat.ltb b a) eqn:E2; [apply F64Order.ltb_irrefl|].
    destruct (get_sign a); [exact E2|apply F64Order.ltb_irrefl].
  - intros a b H. unfold F64.Math_max. rewrite H. reflexivity.
  - intros a b H. unfold F64.Math_max. rewrite H.
    destruct (PrimFloat.ltb a b); [tauto|]. destruct (PrimFloat.ltb b a); [tauto|].
    destruct (get_sign a); tauto.
  - intros a b. unfold F64.Math_max.
    destruct (PrimFloat.is_nan a || PrimFloat.is_nan b)%bool; [apply F64Order.ltb_nan_l; reflexivity|].
    destruct (PrimFloat.ltb a b) eqn:E1; [apply F64Order.ltb_asym; exact E1|].
    destruct (PrimFloat.ltb b a) eqn:E2; [apply F64Order.ltb_irrefl|].
    destruct (get_sign a); [exact E2|apply F64Order.ltb_irrefl].
  - intros a b. unfold F64.Math_max.
    destruct (PrimFloat.is_nan a || PrimFloat.is_nan b)%bool; [apply F64Order.ltb_nan_l; reflexivity|].
    destruct (PrimFloat.ltb a b) eqn:E1; [apply F64Order.ltb_irrefl|].
    destruct (PrimFloat.ltb b a) eqn:E2; [exact E1|].
    destruct (get_sign a); [apply F64Order.ltb_irrefl|exact E1].
Qed.
(** ** The extended reals satisfy the laws *)

Module XROrder.
Import XR.

Lemma Rltb_true a b : Rltb a b = true <-> (a < b)%R.
Proof. unfold Rltb. destruct (Rlt_dec a b); split; intros; try discriminate; tauto. Qed.

Lemma Rltb_false a b : Rltb a b = false <-> (b <= a)%R.
Proof. unfold Rltb. destruct (Rlt_dec a b); split; intros; try discriminate; try reflexivity; lra. Qed.



Ltac rb :=
  repeat match goal with
  | H : Rltb _ _ = true |- _ => apply Rltb_true in H
  | H : Rltb _ _ = false |- _ => apply Rltb_false in H
  | |- Rltb _ _ = true => apply Rltb_true
  | |- Rltb _ _ = false => apply Rltb_false
  end.

Lemma lt_irrefl a : lt a a = false.
Proof. destruct a as [|[|]|r]; simpl; trivial. rb. lra. Qed.

Lemma lt_trans a b c : lt a b = true -> lt b c = true -> lt a c = true.
Proof.
  destruct a as [|[|]|x], b as [|[|]|y], c as [|[|]|z]; simpl; intros; try discriminate;
    trivial. rb. lra.
Qed.

Lemma lt_cotrans a b c :
  lt a c = true -> isNaN b = false -> lt a b = true \/ lt b c = true.
Proof.
  destruct a as [|[|]|x], b as [|[|]|y], c as [|[|]|z]; simpl; intros; try discriminate;
    auto.
  rb. destruct (Rlt_dec x y); [left|right]; rb; lra.
Qed.

End XROrder.

(** ** Facts about the array helpers *)

Section ArrayFacts.
Context {A : Arith}.

Lemma for_push_length (T : Type) (from n : nat) (body : Z -> T) :
  List.length (for_push from n body) = (n - from)%nat.
Proof. unfold for_push. rewrite length_map, length_seq. reflexivity. Qed.

Lemma for_push_nth_error (T : Type) (from n : nat) (body : Z -> T) (i : nat) :
  i < (n - from)%nat ->
  nth_error (for_push from n body) i = Some (body (Z.of_nat (from + i)%nat)).
Proof.
  intros H. unfold for_push. rewrite nth_error_map.
  rewrite nth_error_seq. 
  destruct (Nat.ltb_spec i (n - from)%nat); [reflexivity | lia].
Qed.

Lemma mapi_from_length (T : Type) (f : num -> Z -> T) (a : list num) (i : Z) :
  List.length (mapi_from f i a) = List.length a.
Proof. revert i. induction a as [|v a IH]; intros i; simpl; [reflexivity | now rewrite IH]. Qed.

Lemma mapi_length (T : Type) (f : num -> Z -> T) (a : list num) :
  List.length (mapi f a) = List.length a.
Proof. apply mapi_from_length. Qed.

Lemma mapi_from_nth_error (T : Type) (f : num -> Z -> T) (a : list num) (i : Z) (k : nat) :
  nth_error (mapi_from f i a) k =
  option_map (fun v => f v (i + Z.of_nat k)%Z) (nth_error a k).
Proof.
  revert i k. induction a as [|v a IH]; intros i [|k]; simpl; try reflexivity.
  - now rewrite Z.add_0_r.
  - rewrite IH. destruct (nth_error a k); simpl; [|reflexivity].
    do 2 f_equal. lia.
Qed.

Lemma mapi_nth_error (T : Type) (f : num -> Z -> T) (a : list num) (k : nat) :
  nth_error (mapi f a) k = option_map (fun v => f v (Z.of_nat k)) (nth_error a k).
Proof. unfold mapi. rewrite mapi_from_nth_error. reflexivity. Qed.

Lemma get_nth_error (a : list num) (k : nat) (x : num) :
  nth_error a k = Some x -> a.[Z.of_nat k] = x.
Proof.
  intros H. unfold get. destruct (Z.ltb_spec (Z.of_nat k) 0); [lia|].
  rewrite Nat2Z.id. now apply nth_error_nth.
Qed.

Lemma get_outside (a : list num) (i : Z) :
  (i < 0 \/ Z.of_nat (List.length a) <= i)%Z -> a.[i] = NaN.
Proof.
  intros H. unfold get. destruct (Z.ltb_spec i 0); [reflexivity|].
  apply nth_overflow. lia.
Qed.

Lemma counter_length (from len : Z) :
  List.length (counter from len) = Z.to_nat (len - from).
Proof. unfold counter. now rewrite length_map, length_seq. Qed.

End ArrayFacts.
(** ** Wilder smoothing *)

Section WilderFacts.
Context {A : Arith}.

Lemma rma_loop_length alpha fi rest i v :
  List.length (rma_loop alpha fi rest i v) = List.length rest.
Proof.
  revert i v. induction rest as [|x rest IH]; intros i v; simpl; [reflexivity|].
  destruct ((fi <? 0)%Z || (i <? fi)%Z)%bool; simpl; [now rewrite IH|].
  destruct (i =? fi)%Z; simpl; now rewrite IH.
Qed.

Lemma rma_length source length :
  List.length (rma source length) = List.length source.
Proof.
  unfold rma. destruct (rma_seed length source 0 0 #0 (-1)) as [[vc s] fi].
  apply rma_loop_length.
Qed.

Lemma rma_loop_before alpha fi rest i v j :
  (fi < 0 \/ i + Z.of_nat j < fi)%Z -> j < List.length rest ->
  nth_error (rma_loop alpha fi rest i v) j = Some NaN.
Proof.
  revert i v j. induction rest as [|x rest IH]; intros i v j H Hj; simpl in *; [lia|].
  destruct j as [|j].
  - replace ((fi <? 0)%Z || (i <? fi)%Z)%bool with true; [reflexivity|].
    symmetry. apply orb_true_iff. rewrite !Z.ltb_lt. lia.
  - destruct ((fi <? 0)%Z || (i <? fi)%Z)%bool; [|destruct (i =? fi)%Z]; simpl;
      apply IH; lia.
Qed.

Lemma rma_loop_at alpha fi rest i v j :
  (0 <= fi)%Z -> (i + Z.of_nat j = fi)%Z -> j < List.length rest ->
  nth_error (rma_loop alpha fi rest i v) j = Some v.
Proof.
  revert i v j. induction rest as [|x rest IH]; intros i v j H0 H Hj; simpl in *; [lia|].
  destruct j as [|j].
  - replace ((fi <? 0)%Z || (i <? fi)%Z)%bool with false
      by (symmetry; apply orb_false_iff; rewrite !Z.ltb_ge; lia).
    replace (i =? fi)%Z with true by (symmetry; apply Z.eqb_eq; lia). reflexivity.
  - replace ((fi <? 0)%Z || (i <? fi)%Z)%bool with true
      by (symmetry; apply orb_true_iff; rewrite !Z.ltb_lt; lia).
    simpl. apply IH; lia.
Qed.

Lemma rma_loop_after alpha fi rest i v j x y :
  (0 <= fi)%Z -> (fi <= i + Z.of_nat j)%Z ->
  nth_error rest (S j) = Some x ->
  nth_error (rma_loop alpha fi rest i v) j = Some y ->
  nth_error (rma_loop alpha fi rest i v) (S j) =
  Some (if isNaN x then y else alpha * x + (#1 - alpha) * y).
Proof.
  revert i v j. induction rest as [|x0 rest IH]; intros i v j H0 H Hx Hy; [discriminate|].
  simpl in Hx. destruct j as [|j].
  - destruct rest as [|x1 rest]; [discriminate|]. simpl in Hx. injection Hx as ->.
    simpl in Hy |- *.
    destruct ((fi <? 0)%Z || (i <? fi)%Z)%bool eqn:E1.
    { apply orb_true_iff in E1. rewrite !Z.ltb_lt in E1. lia. }
    replace ((fi <? 0)%Z || (i + 1 <? fi)%Z)%bool with false
      by (symmetry; apply orb_false_iff; rewrite !Z.ltb_ge; lia).
    replace (i + 1 =? fi)%Z with false by (symmetry; apply Z.eqb_neq; lia).
    destruct (i =? fi)%Z; simpl in Hy |- *; injection Hy as <-; reflexivity.
  - simpl in Hy |- *.
    destruct ((fi <? 0)%Z || (i <? fi)%Z)%bool; [|destruct (i =? fi)%Z];
      simpl in Hy |- *; apply IH; trivial; lia.
Qed.

Lemma rma_seed_done len rest i vc s fi :
  (len <= vc)%Z -> rma_seed len rest i vc s fi = (vc, s, fi).
Proof.
  intros H. destruct rest as [|x rest]; simpl; [reflexivity|].
  destruct (Z.ltb_spec vc len); [lia | reflexivity].
Qed.

Lemma count_valid_cons x l :
  count_valid (x :: l) = if isNaN x then count_valid l else S (count_valid l).
Proof. unfold count_valid, valid. simpl. destruct (isNaN x); reflexivity. Qed.

Lemma first_valid_cons n x l :
  first_valid n (x :: l) =
  if isNaN x then first_valid n l
  else match n with O => [] | S m => x :: first_valid m l end.
Proof. unfold first_valid, valid. simpl. destruct (isNaN x); simpl; [reflexivity|]. now destruct n. Qed.

Lemma count_valid_prefix_pos l k x :
  nth_error l k = Some x -> isNaN x = false -> 0 < count_valid (firstn (S k) l).
Proof.
  revert k. induction l as [|y l IH]; intros [|k] H Hx; simpl in H; try discriminate.
  - injection H as ->. rewrite firstn_cons, count_valid_cons, Hx. lia.
  - rewrite firstn_cons, count_valid_cons. specialize (IH _ H Hx).
    destruct (isNaN y); lia.
Qed.

Lemma rma_seed_none rest len i vc s fi :
  (Z.of_nat (count_valid rest) < len - vc)%Z ->
  snd (rma_seed len rest i vc s fi) = fi.
Proof.
  revert i vc s fi. induction rest as [|x rest IH]; intros i vc s fi H; simpl; [reflexivity|].
  rewrite count_valid_cons in H.
  destruct (Z.ltb_spec vc len); [|reflexivity].
  destruct (isNaN x) eqn:Ex.
  - apply IH. exact H.
  - rewrite IH by lia.
    destruct (Z.eqb_spec (vc + 1) len); [lia | reflexivity].
Qed.

Lemma rma_seed_some rest len i vc s fi k :
  (vc < len)%Z -> seed_index rest (Z.to_nat (len - vc)) k ->
  rma_seed len rest i vc s fi =
  (len, fold_left add (first_valid (Z.to_nat (len - vc)) rest) s, (i + Z.of_nat k)%Z).
Proof.
  revert i vc s fi k. induction rest as [|x rest IH]; intros i vc s fi k Hlt [(y & Hy & Hv) Hc].
  { destruct k; discriminate. }
  simpl. destruct (Z.ltb_spec vc len); [|lia].
  rewrite firstn_cons, count_valid_cons in Hc. rewrite first_valid_cons.
  destruct (isNaN x) eqn:Ex; rewrite ?Ex in Hc.
  - destruct k as [|k]; simpl in Hy; [injection Hy as ->; congruence|].
    rewrite (IH (i + 1)%Z vc s fi k); [f_equal; lia | lia |].
    split; [exists y; tauto | exact Hc].
  - destruct k as [|k]; simpl in Hy.
    + rewrite firstn_O in Hc. unfold count_valid in Hc. simpl in Hc.
      assert (E : (vc + 1 = len)%Z) by lia.
      rewrite <- Hc. unfold first_valid. simpl.
      destruct (Z.eqb_spec (vc + 1) len); [|lia].
      rewrite rma_seed_done by lia. rewrite E. f_equal. lia.
    + pose proof (@count_valid_prefix_pos _ _ _ Hy Hv) as Hp.
      destruct (Z.to_nat (len - vc)) as [|m] eqn:Em; [lia|].
      apply eq_add_S in Hc.
      destruct (Z.eqb_spec (vc + 1) len) as [E|E]; [lia|].
      rewrite (IH (i + 1)%Z (vc + 1)%Z (s + x) fi k); [|lia|].
      * replace (Z.to_nat (len - (vc + 1))) with m by lia. simpl.
        f_equal. lia.
      * replace (Z.to_nat (len - (vc + 1))) with m by lia.
        split; [exists y; tauto | exact Hc].
Qed.

Lemma seed_index_enough source n k :
  seed_index source n k -> n <= count_valid source /\ 0 < n /\ k < List.length source.
Proof.
  intros [(x & Hx & Hv) Hc]. split; [|split].
  - rewrite <- Hc. rewrite <- (firstn_skipn (S k) source) at 2.
    unfold count_valid. rewrite filter_app, length_app. lia.
  - rewrite <- Hc. eapply count_valid_prefix_pos; eassumption.
  - apply nth_error_Some. congruence.
Qed.

Lemma first_valid_length n l : n <= count_valid l -> List.length (first_valid n l) = n.
Proof. unfold first_valid, count_valid. intros H. rewrite length_firstn. lia. Qed.

(** The shape of [rma] when the seed exists. *)
Lemma rma_seeded source length k :
  seed_index source (Z.to_nat length) k ->
  rma source length =
  rma_loop (#1 / #length) (Z.of_nat k) source 0
           (mean (first_valid (Z.to_nat length) source)).
Proof.
  intros H. pose proof (@seed_index_enough _ _ _ H) as (H1 & H2 & H3).
  unfold rma. rewrite (@rma_seed_some source length 0%Z 0%Z #0 (-1)%Z k).
  - rewrite Z.gtb_ltb.
    replace (0 <? length)%Z with true by (symmetry; apply Z.ltb_lt; lia).
    unfold mean. rewrite first_valid_length by lia.
    rewrite Z.sub_0_r, Z2Nat.id by lia. reflexivity.
  - lia.
  - now rewrite Z.sub_0_r.
Qed.

(** The shape of [rma] when there are too few valid samples. *)
Lemma rma_unseeded source length :
  (Z.of_nat (count_valid source) < length)%Z ->
  exists v, rma source length = rma_loop (#1 / #length) (-1) source 0 v.
Proof.
  intros H. unfold rma.
  pose proof (@rma_seed_none source length 0%Z 0%Z #0 (-1)%Z) as E.
  destruct (rma_seed length source 0 0 #0 (-1)) as [[vc s] fi]. simpl in E.
  rewrite E by lia. eexists. reflexivity.
Qed.

Lemma seed_index_exists source n :
  0 < n -> n <= count_valid source -> exists k, seed_index source n k.
Proof.
  revert n. induction source as [|x source IH]; intros n Hn Hc.
  { unfold count_valid in Hc. simpl in Hc. lia. }
  rewrite count_valid_cons in Hc. destruct (isNaN x) eqn:Ex.
  - destruct (IH n Hn Hc) as (k & (y & Hy & Hv) & Hk). exists (S k). split.
    + exists y. tauto.
    + rewrite firstn_cons, count_valid_cons, Ex. exact Hk.
  - destruct n as [|[|n]]; [lia | |].
    + exists 0. split; [exists x; tauto|].
      rewrite firstn_cons, count_valid_cons, Ex. reflexivity.
    + destruct (IH (S n)) as (k & (y & Hy & Hv) & Hk); [lia | lia |].
      exists (S k). split; [exists y; tauto|].
      rewrite firstn_cons, count_valid_cons, Ex. now rewrite Hk.
Qed.

(** C1.  Wilder smoothing [rma], for a positive integer length: the output has
    the length of the input; it is NaN before the position [k] of the
    [length]-th non-NaN input; at [k] it is the mean of the first [length]
    non-NaN inputs; at every later position it is
    [(1/length) * input + (1 - 1/length) * previous output] when the input is
    not NaN and the previous output when it is; such a [k] exists as soon as
    the input has [length] non-NaN values, and with fewer every output is
    NaN. *)
Theorem rma_wilder_smoothing (source : list num) (length : Z) :
  (0 < length)%Z ->
  let out := rma source length in
  List.length out = List.length source /\
  (forall k, seed_index source (Z.to_nat length) k ->
     (forall i, i < k -> nth_error out i = Some NaN) /\
     nth_error out k = Some (mean (first_valid (Z.to_nat length) source)) /\
     (forall i x prev, k < i -> nth_error source i = Some x ->
        nth_error out (i - 1)%nat = Some prev ->
        nth_error out i = Some (if isNaN x then prev else wilder_step length x prev))) /\
  ((length <= Z.of_nat (count_valid source))%Z ->
     exists k, seed_index source (Z.to_nat length) k) /\
  ((Z.of_nat (count_valid source) < length)%Z ->
     forall i, i < List.length source -> nth_error out i = Some NaN).
Proof.
  intros Hlen out. split; [apply rma_length|]. split; [|split].
  - intros k Hk. pose proof (@seed_index_enough _ _ _ Hk) as (H1 & H2 & H3).
    subst out. rewrite (@rma_seeded source length k Hk). split; [|split].
    + intros i Hi. apply rma_loop_before; lia.
    + apply rma_loop_at; lia.
    + intros i x prev Hi Hx Hp. destruct i as [|i]; [lia|].
      replace (S i - 1)%nat with i in Hp by lia.
      unfold wilder_step. apply rma_loop_after; trivial; lia.
  - intros H. apply seed_index_exists; lia.
  - intros H i Hi. subst out. destruct (@rma_unseeded source length H) as [v ->].
    apply rma_loop_before; lia.
Qed.

End WilderFacts.

Lemma rma_wilder_smoothing_witness :
  (0 < 2)%Z /\
  rma (A:=float64) [1; nan; 2; 3; nan; 4]%float 2 = [nan; nan; 1.5; 2.25; 2.25; 3.125]%float /\
  nth_error (rma (A:=float64) [1; nan; 2; 3; nan; 4]%float 2) 2
  = Some (mean (A:=float64) (first_valid (A:=float64) 2 [1; nan; 2; 3; nan; 4]%float)).
Proof.
  split; [lia|]. split; [vm_compute; reflexivity|].
  refine (proj1 (proj2 (proj1 (proj2
    (@rma_wilder_smoothing float64 [1; nan; 2; 3; nan; 4]%float 2 _)) 2 _))).
  - lia.
  - split; [exists 2%float; split; reflexivity | reflexivity].
Defined.

(** ** Windowed functions: the warm-up *)

Section WindowedFacts.
Context {A : Arith}.
Variable Math_exp : num -> num.
Variable Array_sort : list num -> list num.




















End WindowedFacts.


(** The exact count also fails where a window holds a NaN, and for [linreg]
    and [percentrank] at length 1, whose ratios are 0/0. *)
Example later_positions_may_be_NaN :
  sma (A:=float64) [nan; 1; 2]%float 2 = [nan; nan; 1.5]%float /\
  linreg (A:=float64) [5; 6]%float 1 0%float = [nan; nan]%float /\
  percentrank (A:=float64) [5; 6]%float 1 = [nan; nan]%float.
Proof. repeat split; vm_compute; reflexivity. Qed.

(** ** Zero denominators *)

Section SentinelFacts.
Context {A : Arith}.

Lemma ema_loop_length multiplier emaVal rest :
  List.length (ema_loop multiplier emaVal rest) = List.length rest.
Proof.
  revert emaVal. induction rest as [|x rest IH]; intros emaVal; simpl;
    [reflexivity | now rewrite IH].
Qed.

Lemma ema_length source length : List.length (ema source length) = List.length source.
Proof. destruct source; simpl; [reflexivity | now rewrite ema_loop_length]. Qed.

Lemma sma_length source length : List.length (sma source length) = List.length source.
Proof. unfold sma. rewrite for_push_length. lia. Qed.

Lemma mapi_nth_error_Some (T : Type) (f : num -> Z -> T) (a : list num) (i : nat) :
  i < List.length a ->
  exists v, nth_error a i = Some v /\ nth_error (mapi f a) i = Some (f v (Z.of_nat i)).
Proof.
  intros H. destruct (nth_error a i) as [v|] eqn:E.
  - exists v. split; [reflexivity|]. rewrite mapi_nth_error, E. reflexivity.
  - apply nth_error_None in E. lia.
Qed.

Lemma rsi_changes_length source :
  List.length (rsi_changes source) = (List.length source - 1)%nat.
Proof. unfold rsi_changes. apply for_push_length. Qed.

Lemma tsi_changes_length source :
  List.length (tsi_changes source) = S (List.length source - 1).
Proof. unfold tsi_changes. simpl. now rewrite for_push_length. Qed.

(** C4.  Where the denominator an oscillator divides by is exactly zero, the
    output is the function's sentinel: 100 for [rsi] (smoothed loss 0; the
    smoothed series at [i] feeds output [i + 1]), 50 for the raw %K of
    [stoch] (highest high = lowest low), 0 for [cci] (mean deviation 0), 0 for
    [bbw] and [kcw] (basis 0), 0 for [cmo] (up + down = 0) and 0 for [tsi]
    (smoothed absolute change 0). *)
Theorem zero_denominator_sentinels
    (source high low close : list num)
    (length kPeriod shortLength longLength atrLength : Z) (mult : num) (i : nat) :
  (i < List.length (rsi_losses source) ->
   ((rma (rsi_losses source) length).[Z.of_nat i] === #0) = true ->
   nth_error (rsi source length) (S i) = Some #100) /\
  (i < List.length close ->
   (((highest high kPeriod).[Z.of_nat i] - (lowest low kPeriod).[Z.of_nat i]) === #0) = true ->
   nth_error (stoch_rawK close high low kPeriod) i = Some #50) /\
  (i < List.length high ->
   ((dev (typical high low close) length).[Z.of_nat i] === #0) = true ->
   nth_error (cci high low close length) i = Some #0) /\
  (i < List.length source ->
   ((sma source length).[Z.of_nat i] === #0) = true ->
   nth_error (bbw source length mult) i = Some #0) /\
  (i < List.length close ->
   ((ema close length).[Z.of_nat i] === #0) = true ->
   nth_error (kcw high low close length mult atrLength) i = Some #0) /\
  (i < List.length source -> (length <= Z.of_nat i)%Z ->
   ((fst (cmo_sums source length (Z.of_nat i)) +
     snd (cmo_sums source length (Z.of_nat i))) === #0) = true ->
   nth_error (cmo source length) i = Some #0) /\
  (i < List.length (tsi_changes source) ->
   ((ema (ema (map Math_abs (tsi_changes source)) longLength) shortLength).[Z.of_nat i]
      === #0) = true ->
   nth_error (tsi source shortLength longLength) i = Some #0).
Proof.
  repeat split.
  - intros Hi H0. unfold rsi. simpl.
    rewrite for_push_nth_error.
    + simpl. rewrite H0. reflexivity.
    + rewrite rma_length. unfold rsi_gains. unfold rsi_losses in Hi.
      rewrite length_map in *. lia.
  - intros Hi H0. unfold stoch_rawK. cbv zeta.
    match goal with
    | |- nth_error (mapi ?f ?u) i = _ =>
        destruct (@mapi_nth_error_Some num f u i Hi) as (v & _ & ->)
    end.
    rewrite H0. reflexivity.
  - intros Hi H0. unfold cci. cbv zeta.
    match goal with
    | |- nth_error (mapi ?f ?u) i = _ =>
        destruct (@mapi_nth_error_Some num f u i) as (v & _ & ->)
    end.
    + unfold typical. rewrite mapi_length. exact Hi.
    + rewrite H0. reflexivity.
  - intros Hi H0. unfold bbw, bb. cbv zeta.
    match goal with
    | |- nth_error (mapi ?f ?u) i = _ =>
        destruct (@mapi_nth_error_Some num f u i) as (v & _ & ->)
    end.
    + rewrite mapi_length, sma_length. exact Hi.
    + rewrite H0. reflexivity.
  - intros Hi H0. unfold kcw, kc. cbv zeta.
    match goal with
    | |- nth_error (mapi ?f ?u) i = _ =>
        destruct (@mapi_nth_error_Some num f u i) as (v & _ & ->)
    end.
    + rewrite mapi_length, ema_length. exact Hi.
    + rewrite H0. reflexivity.
  - intros Hi Hlen H0. unfold cmo. rewrite for_push_nth_error by lia. simpl.
    replace (Z.of_nat i <? length)%Z with false by (symmetry; apply Z.ltb_ge; lia).
    destruct (cmo_sums source length (Z.of_nat i)) as [sumUp sumDown].
    simpl in H0. rewrite H0. reflexivity.
  - intros Hi H0. unfold tsi. cbv zeta.
    match goal with
    | |- nth_error (mapi ?f ?u) i = _ =>
        destruct (@mapi_nth_error_Some num f u i) as (v & _ & ->)
    end.
    + rewrite !ema_length. exact Hi.
    + rewrite H0. reflexivity.
Qed.

End SentinelFacts.

(** The constant of [cci] on binary64 is the literal [0.015] of the source. *)
Example cci_constant_is_the_literal :
  @div float64 (@of_Z float64 15) (@of_Z float64 1000) = 0.015%float.
Proof. vm_compute. reflexivity. Qed.

(** The zero denominators are reached: a rising series has no loss, a flat
    one has no range, no deviation, no change. *)
Example zero_denominators_occur :
  rsi (A:=float64) [1; 2; 3; 4]%float 2 = [nan; nan; 100; 100]%float /\
  stoch_rawK (A:=float64) [5; 5; 5]%float [5; 5; 5]%float [5; 5; 5]%float 2
    = [nan; 50; 50]%float /\
  cci (A:=float64) [5; 5; 5]%float [5; 5; 5]%float [5; 5; 5]%float 2
    = [nan; 0; 0]%float /\
  bbw (A:=float64) [1; -1; 1]%float 2 2%float = [nan; 0; 0]%float /\
  cmo (A:=float64) [5; 5; 5]%float 2 = [nan; nan; 0]%float /\
  tsi (A:=float64) [5; 5; 5]%float 2 3 = [0; 0; 0]%float.
Proof. repeat split; vm_compute; reflexivity. Qed.

(** ** Crossover and crossunder *)

Section CrossFacts.
Context {A : Arith} {L : ArithLaws A}.

Lemma lt_asym (a b : num) : (a <? b) = true -> (b <? a) = false.
Proof.
  intros H. destruct (b <? a) eqn:E; [|reflexivity].
  pose proof (lt_trans _ _ _ H E) as K. rewrite lt_irrefl in K. discriminate.
Qed.

(** C9.  At every position, [crossover] and [crossunder] are not both true;
    both are false at position 0; and at a position [i > 0], [crossover] is
    true exactly when [s1[i-1] <= s2[i-1]] and [s1[i] > s2[i]].
    [crossover([1,3],[2,2]) = [false, true]]. *)
Theorem crossover_crossunder_exclusive (s1 s2 : list num) (i : nat) (o u : bool) :
  nth_error (crossover s1 s2) i = Some o ->
  nth_error (crossunder s1 s2) i = Some u ->
  o && u = false /\
  (i = 0%nat -> o = false /\ u = false) /\
  (0 < i -> (o = true <->
             (s1.[Z.of_nat i - 1] <=? s2.[Z.of_nat i - 1]) = true /\
             (s1.[Z.of_nat i] >? s2.[Z.of_nat i]) = true)) /\
  crossover (A:=float64) [1; 3]%float [2; 2]%float = [false; true].
Proof.
  unfold crossover, crossunder. rewrite !mapi_nth_error.
  destruct (nth_error s1 i) as [v|] eqn:Ev; simpl; [|discriminate].
  intros Ho Hu. injection Ho as <-. injection Hu as <-.
  rewrite (get_nth_error _ _ Ev).
  destruct (Z.eqb_spec (Z.of_nat i) 0) as [E|E].
  - split; [reflexivity|]. split; [tauto|]. split; [lia | reflexivity].
  - split; [|split; [lia|split; [|reflexivity]]].
    + destruct (s2.[Z.of_nat i] <? v) eqn:E1; simpl; [|reflexivity].
      rewrite (lt_asym _ _ E1). simpl. apply andb_false_r.
    + intros _. rewrite andb_true_iff. tauto.
Qed.

End CrossFacts.

(** ** SuperTrend *)

Section LoopFacts.
Variables S O : Type.
Variable step : S -> Z -> S * O.

Lemma run_loop_length (s : S) (idx : list Z) :
  List.length (run_loop step s idx) = List.length idx.
Proof.
  revert s. induction idx as [|i idx IH]; intros s; simpl; [reflexivity | now rewrite IH].
Qed.

Lemma run_loop_nth_0 (s : S) (idx : list Z) (j : Z) :
  nth_error idx 0 = Some j -> nth_error (run_loop step s idx) 0 = Some (step s j).
Proof. destruct idx; simpl; [discriminate|]. now intros [= ->]. Qed.

Lemma run_loop_nth_S (s : S) (idx : list Z) (i : nat) (so : S * O) (j : Z) :
  nth_error (run_loop step s idx) i = Some so ->
  nth_error idx (Datatypes.S i) = Some j ->
  nth_error (run_loop step s idx) (Datatypes.S i) = Some (step (fst so) j).
Proof.
  revert s i. induction idx as [|k idx IH]; intros s i Hso Hj; [discriminate|].
  destruct i as [|i]; simpl in *.
  - injection Hso as <-. now apply run_loop_nth_0.
  - now apply IH.
Qed.


(** Every entry of the trace is one step from the state the entry before it
    left. *)
Lemma run_loop_entry (s : S) (idx : list Z) (i : nat) (so : S * O) :
  nth_error (run_loop step s idx) i = Some so ->
  exists sb j,
    nth_error idx i = Some j /\ so = step sb j /\
    (i = 0%nat -> sb = s) /\
    (forall so0, nth_error (run_loop step s idx) (i - 1)%nat = Some so0 ->
       (0 < i)%nat -> sb = fst so0).
Proof.
  revert s i. induction idx as [|k idx IH]; intros s i Hso.
  { destruct i; discriminate. }
  destruct i as [|i]; simpl in Hso.
  - injection Hso as <-. exists s, k. repeat split; trivial. intros; lia.
  - destruct (IH _ _ Hso) as (sb & j & Hj & E & H0 & HS).
    exists sb, j. repeat split; trivial; [lia|].
    intros so0 Hso0 _. destruct i as [|i]; simpl in Hso0.
    + injection Hso0 as <-. now apply H0.
    + apply HS; [|lia]. simpl. now rewrite Nat.sub_0_r.
Qed.


End LoopFacts.

Lemma counter_nth_error (n i : nat) :
  i < n -> nth_error (counter 0 (Z.of_nat n)) i = Some (Z.of_nat i).
Proof.
  intros H. unfold counter. rewrite nth_error_map, nth_error_seq.
  rewrite Z.sub_0_r, Nat2Z.id.
  destruct (Nat.ltb_spec i n); [reflexivity | lia].
Qed.

Lemma counter_nth_error_inv (n i : nat) (j : Z) :
  nth_error (counter 0 (Z.of_nat n)) i = Some j -> j = Z.of_nat i /\ i < n.
Proof.
  intros H. assert (Hi : i < n).
  { assert (K : nth_error (counter 0 (Z.of_nat n)) i <> None) by congruence.
    apply nth_error_Some in K. rewrite counter_length in K. lia. }
  rewrite counter_nth_error in H by exact Hi. injection H as <-. tauto.
Qed.

Section SuperTrendFacts.
Context {A : Arith} {L : ArithLaws A}.




End SuperTrendFacts.


(** A monotonic series need not flip exactly once: the series above flips
    twice, and a rising series whose close stays under the upper band never
    flips. *)
Example monotonic_series_flip_counts :
  snd (supertrend (A:=float64)
         [0; 1; 1; 1]%float [0; 1; 1; 1]%float [0; 1; 1; 1]%float 0.5%float 1)
  = [1; -1; -1; 1]%Z /\
  flips [1; -1; -1; 1]%Z = 2%nat /\
  snd (supertrend (A:=float64) [1; 2; 3]%float [1; 2; 3]%float [1; 2; 3]%float 3%float 2)
  = [1; 1; 1]%Z /\
  flips [1; 1; 1]%Z = 0%nat.
Proof. repeat split; vm_compute; reflexivity. Qed.

(** ** Parabolic SAR *)

(** C6: an input on which the clamp property fails.  The series starts long
    with the extreme point [ep = low[0]], so until the first flip [ep] is the
    greatest of [low[0]] and the highs from bar 1 on: [high[0]] is left out.
    When the first flip comes at bar 2 the SAR is reset to that [ep], 9.75,
    which lies below [max(high[1], high[0]) = 10] although the regime is now
    short. *)
Theorem sar_first_flip_below_prior_high :
  sar (A:=float64) [10; 9.75; 9.5]%float [9; 9.25; 8.5]%float 0.02%float 0.02%float 0.2%float
  = [9; 9; 9.75]%float /\
  map (fun so => isLong (fst so))
      (sar_trace (A:=float64) [10; 9.75; 9.5]%float [9; 9.25; 8.5]%float
         0.02%float 0.02%float 0.2%float)
  = [true; true; false] /\
  @Math_max float64 9.75%float 10%float = 10%float /\
  @le float64 10%float 9.75%float = false.
Proof. repeat split; vm_compute; reflexivity. Qed.

Section SarFacts.
Context {A : Arith} {L : ArithLaws A}.

Lemma lt_false_below (x y z : num) :
  (x <? y) = true -> (z <? y) = false -> (z <? x) = false.
Proof.
  intros H1 H2. destruct (z <? x) eqn:E; [|reflexivity].
  rewrite (lt_trans _ _ _ E H1) in H2. discriminate.
Qed.

Lemma lt_false_above (x y z : num) :
  (y <? x) = true -> (y <? z) = false -> (x <? z) = false.
Proof.
  intros H1 H2. destruct (x <? z) eqn:E; [|reflexivity].
  rewrite (lt_trans _ _ _ H1 E) in H2. discriminate.
Qed.

Lemma isNaN_Math_min (a b : num) : isNaN a = true -> isNaN (Math_min a b) = true.
Proof. intros H. rewrite Math_min_NaN by (rewrite H; reflexivity). apply isNaN_NaN. Qed.

Lemma isNaN_Math_max (a b : num) : isNaN a = true -> isNaN (Math_max a b) = true.
Proof. intros H. rewrite Math_max_NaN by (rewrite H; reflexivity). apply isNaN_NaN. Qed.

(** The least of three is above none of them. *)
Lemma min3_below (a b c : num) :
  (a <? Math_min (Math_min a b) c) = false /\
  (b <? Math_min (Math_min a b) c) = false /\
  (c <? Math_min (Math_min a b) c) = false.
Proof.
  assert (K : forall x, (x <? Math_min a b) = false ->
                        (x <? Math_min (Math_min a b) c) = false).
  { intros x Hx. destruct (x <? Math_min (Math_min a b) c) eqn:E; [|reflexivity].
    destruct (isNaN (Math_min a b)) eqn:En.
    - rewrite lt_NaN_r in E by (now apply isNaN_Math_min). discriminate.
    - destruct (lt_cotrans _ (Math_min a b) _ E En) as [H | H].
      + congruence.
      + rewrite Math_min_le_l in H. discriminate. }
  split; [|split].
  - apply K, Math_min_le_l.
  - apply K, Math_min_le_r.
  - apply Math_min_le_r.
Qed.

(** The greatest of three is below none of them. *)
Lemma max3_above (a b c : num) :
  (Math_max (Math_max a b) c <? a) = false /\
  (Math_max (Math_max a b) c <? b) = false /\
  (Math_max (Math_max a b) c <? c) = false.
Proof.
  assert (K : forall x, (Math_max a b <? x) = false ->
                        (Math_max (Math_max a b) c <? x) = false).
  { intros x Hx. destruct (Math_max (Math_max a b) c <? x) eqn:E; [|reflexivity].
    destruct (isNaN (Math_max a b)) eqn:En.
    - rewrite lt_NaN_l in E by (now apply isNaN_Math_max). discriminate.
    - destruct (lt_cotrans _ (Math_max a b) _ E En) as [H | H].
      + rewrite Math_max_ge_l in H. discriminate.
      + congruence. }
  split; [|split].
  - apply K, Math_max_ge_l.
  - apply K, Math_max_ge_r.
  - apply Math_max_ge_r.
Qed.

(** One bar of [sar], from bar 1 on. *)
Lemma sar_step_covers high low start inc maxAF (sp : sar_state) (j : Z) :
  (1 <= j)%Z ->
  (j = 1%Z -> isLong sp = true) ->
  ((2 <= j)%Z -> ep_covers high low (j - 1) sp) ->
  let so := sar_step high low start inc maxAF sp j in
  snd so = sarVal (fst so) /\
  ep_covers high low j (fst so) /\
  ((2 <= j)%Z ->
   (isLong (fst so) = false -> isLong sp = true -> (3 <= j)%Z) ->
   sar_clamped high low j (fst so) (snd so)).
Proof.
  intros Hj H1 H2. unfold sar_step.
  replace (j =? 0)%Z with false by (symmetry; apply Z.eqb_neq; lia).
  cbv zeta. split; [reflexivity|].
  set (s0 := sarVal sp + af sp * (ep sp - sarVal sp)).
  unfold ep_covers, sar_clamped in *.
  destruct (isLong sp) eqn:El.
  - pose proof (min3_below s0 low.[j - 1]
                  (if (j >? 1)%Z then low.[j - 2] else low.[j - 1])) as (M1 & M2 & M3).
    destruct (low.[j] <? _) eqn:Eflip; cbn [fst snd isLong ep sarVal].
    + split.
      * split; [apply lt_irrefl|]. eapply lt_false_below; eassumption.
      * intros Hj2 Hex. specialize (Hex eq_refl eq_refl).
        destruct (H2 Hj2) as [K1 K2]. split; [exact K1|].
        replace (j - 2)%Z with (j - 1 - 1)%Z by lia. apply K2. lia.
    + assert (Hclamp : (2 <= j)%Z ->
                (low.[j - 1] <? Math_min (Math_min s0 low.[j - 1])
                                  (if (j >? 1)%Z then low.[j - 2] else low.[j - 1])) = false /\
                (low.[j - 2] <? Math_min (Math_min s0 low.[j - 1])
                                  (if (j >? 1)%Z then low.[j - 2] else low.[j - 1])) = false).
      { intros Hj2. split; [exact M2|].
        revert M3. replace (j >? 1)%Z with true by (symmetry; apply Z.gtb_lt; lia).
        trivial. }
      destruct (ep sp <? high.[j]) eqn:Eep; cbn [fst snd isLong ep sarVal].
      * split; [|intros Hj2 _; now apply Hclamp].
        split; [apply lt_irrefl|]. intros Hj2. destruct (H2 Hj2) as [K1 _].
        eapply lt_false_above; eassumption.
      * split; [|intros Hj2 _; now apply Hclamp].
        split; [exact Eep|]. intros Hj2. now destruct (H2 Hj2).
  - assert (Hj2 : (2 <= j)%Z).
    { destruct (Z.eq_dec j 1) as [E | E]; [specialize (H1 E); discriminate | lia]. }
    destruct (H2 Hj2) as [K1 K2].
    replace (j - 1 - 1)%Z with (j - 2)%Z in K2 by lia.
    pose proof (max3_above s0 high.[j - 1]
                  (if (j >? 1)%Z then high.[j - 2] else high.[j - 1])) as (M1 & M2 & M3).
    destruct (_ <? high.[j]) eqn:Eflip; cbn [fst snd isLong ep sarVal].
    + split.
      * split; [apply lt_irrefl|]. intros _. eapply lt_false_above; eassumption.
      * intros _ _. tauto.
    + assert (Hclamp :
                (Math_max (Math_max s0 high.[j - 1])
                   (if (j >? 1)%Z then high.[j - 2] else high.[j - 1]) <? high.[j - 1]) = false /\
                (Math_max (Math_max s0 high.[j - 1])
                   (if (j >? 1)%Z then high.[j - 2] else high.[j - 1]) <? high.[j - 2]) = false).
      { split; [exact M2|].
        revert M3. replace (j >? 1)%Z with true by (symmetry; apply Z.gtb_lt; lia).
        trivial. }
      destruct (low.[j] <? ep sp) eqn:Eep; cbn [fst snd isLong ep sarVal].
      * split; [|intros _ _; exact Hclamp].
        split; [apply lt_irrefl|]. eapply lt_false_below; eassumption.
      * split; [|intros _ _; exact Hclamp]. tauto.
Qed.

(** The state after every bar of the trace. *)
Lemma sar_trace_covers high low start inc maxAF (i : nat) (s : sar_state) (v : num) :
  nth_error (sar_trace high low start inc maxAF) i = Some (s, v) ->
  (i = 0%nat -> isLong s = true) /\
  (1 <= i -> ep_covers high low (Z.of_nat i) s).
Proof.
  revert s v. induction i as [|i IH]; intros s v Hso; unfold sar_trace in *.
  - destruct (run_loop_entry _ _ _ _ Hso) as (sb & j & Hj & E & H0 & _).
    apply counter_nth_error_inv in Hj. destruct Hj as [-> _].
    rewrite (H0 eq_refl) in E. unfold sar_step in E. simpl in E.
    injection E as -> _. split; [reflexivity | lia].
  - destruct (run_loop_entry _ _ _ _ Hso) as (sb & j & Hj & E & _ & HS).
    apply counter_nth_error_inv in Hj. destruct Hj as [-> Hi].
    destruct (nth_error (run_loop (sar_step high low start inc maxAF)
                (mk_sar_state start low.[0] true low.[0])
                (counter 0 (Z.of_nat (List.length high)))) i) as [[s0 v0]|] eqn:E0.
    + assert (sb = s0).
      { apply (HS (s0, v0)); [|lia]. replace (S i - 1)%nat with i by lia. exact E0. }
      subst sb. destruct (IH _ _ eq_refl) as [I0 I1].
      split; [lia|]. intros _.
      destruct (@sar_step_covers high low start inc maxAF s0 (Z.of_nat (S i)))
        as (_ & K & _).
      * lia.
      * intros Ei. apply I0. lia.
      * intros Ei. replace (Z.of_nat (S i) - 1)%Z with (Z.of_nat i) by lia.
        apply I1. lia.
      * rewrite <- E in K. exact K.
    + exfalso. apply nth_error_None in E0. rewrite run_loop_length, counter_length in E0.
      lia.
Qed.

(** Outside the one case of C6 the clamp property holds: at every bar from
    bar 2 on, unless the bar is bar 2 and flips the opening long regime. *)
Lemma sar_clamped_elsewhere high low start inc maxAF
    (i : nat) (s0 s : sar_state) (v0 v : num) :
  nth_error (sar_trace high low start inc maxAF) i = Some (s0, v0) ->
  nth_error (sar_trace high low start inc maxAF) (S i) = Some (s, v) ->
  1 <= i ->
  (isLong s = false -> isLong s0 = true -> 2 <= i) ->
  nth_error (sar high low start inc maxAF) (S i) = Some v /\
  sar_clamped high low (Z.of_nat (S i)) s v.
Proof.
  intros H0 H1 Hi Hex. split.
  { unfold sar. rewrite nth_error_map, H1. reflexivity. }
  destruct (sar_trace_covers _ _ _ _ _ _ H0) as [_ I1].
  unfold sar_trace in *.
  destruct (run_loop_entry _ _ _ _ H1) as (sb & j & Hj & E & _ & HS).
  apply counter_nth_error_inv in Hj. destruct Hj as [-> _].
  assert (sb = s0).
  { apply (HS (s0, v0)); [|lia]. replace (S i - 1)%nat with i by lia. exact H0. }
  subst sb.
  destruct (@sar_step_covers high low start inc maxAF s0 (Z.of_nat (S i)))
    as (_ & _ & K).
  - lia.
  - intros Ei. lia.
  - intros _. replace (Z.of_nat (S i) - 1)%Z with (Z.of_nat i) by lia. now apply I1.
  - rewrite <- E in K. apply K; [lia|]. cbn [fst]. intros A1 A2.
    specialize (Hex A1 A2). lia.
Qed.

End SarFacts.

(** ** Output lengths *)

Section LengthFacts.
Context {A : Arith}.

Lemma rsi_length source length :
  List.length (rsi source length) = S (List.length source - 1).
Proof.
  unfold rsi. simpl. rewrite for_push_length, rma_length.
  unfold rsi_gains. rewrite length_map, rsi_changes_length. lia.
Qed.

Lemma tr_length high low close :
  List.length (tr high low close) = S (List.length high - 1).
Proof. unfold tr. simpl. now rewrite for_push_length. Qed.

Lemma atr_length high low close length :
  List.length (atr high low close length) = S (List.length high - 1).
Proof. unfold atr. now rewrite rma_length, tr_length. Qed.

Lemma tsi_length source shortLength longLength :
  List.length (tsi source shortLength longLength) = S (List.length source - 1).
Proof. unfold tsi. now rewrite mapi_length, !ema_length, tsi_changes_length. Qed.

Lemma donchian_length h l len : List.length (donchian h l len) = List.length h.
Proof. unfold donchian, highest. rewrite mapi_length, for_push_length. lia. Qed.

Lemma ichimoku_lengths high low close cp bp lp displacement r :
  ichimoku high low close cp bp lp displacement = Some r ->
  List.length (tenkan r) = List.length high /\
  List.length (kijun r) = List.length high /\
  List.length (senkouA r) = List.length high /\
  List.length (senkouB r) = List.length high /\
  List.length (chikou r)
  = (List.length close - Z.to_nat displacement + Z.to_nat displacement)%nat.
Proof.
  unfold ichimoku. destruct (displacement <? 0)%Z; [discriminate|].
  intros [= <-]. simpl.
  rewrite mapi_length, !donchian_length, length_app, length_skipn, repeat_length.
  tauto.
Qed.

(** Away from the empty input (and, for the lagging span, a displacement
    beyond the series) the lengths agree. *)
Lemma lengths_agree_on_nonempty_input
    (source high low close : list num) (length shortLength longLength : Z)
    (cp bp lp displacement : Z) (r : IchimokuResult) :
  source <> [] -> high <> [] ->
  (Z.to_nat displacement <= List.length close)%nat ->
  ichimoku high low close cp bp lp displacement = Some r ->
  List.length (rsi source length) = List.length source /\
  List.length (tsi source shortLength longLength) = List.length source /\
  List.length (tr high low close) = List.length high /\
  List.length (atr high low close length) = List.length high /\
  List.length (chikou r) = List.length close.
Proof.
  intros Hs Hh Hd Hr.
  rewrite rsi_length, tsi_length, tr_length, atr_length.
  destruct (ichimoku_lengths _ _ _ _ _ _ _ Hr) as (_ & _ & _ & _ & ->).
  destruct source; [congruence|]. destruct high; [congruence|]. simpl. lia.
Qed.

(** C7: the inputs on which the length invariant fails.  On the empty series
    [rsi], [tr] (hence [atr]) and [tsi] return one element, their seed being
    pushed before any bar is looked at; and the lagging span of [ichimoku] is
    [displacement] long when the close series is shorter than the
    displacement. *)
Theorem length_invariant_fails_on_short_input (length shortLength longLength : Z) (c : num) :
  List.length (rsi [] length) = 1%nat /\
  List.length (tr [] [] []) = 1%nat /\
  List.length (atr [] [] [] length) = 1%nat /\
  List.length (tsi [] shortLength longLength) = 1%nat /\
  option_map (fun r => List.length (chikou r)) (ichimoku [c] [c] [c] 9 26 52 26)
  = Some 26%nat.
Proof.
  rewrite rsi_length, tr_length, atr_length, tsi_length. simpl. repeat split.
Qed.

End LengthFacts.

(** The same on binary64, with the values. *)
Example short_input_outputs :
  rsi (A:=float64) [] 14 = [nan]%float /\
  tr (A:=float64) [] [] [] = [nan]%float /\
  atr (A:=float64) [] [] [] 14 = [nan]%float /\
  tsi (A:=float64) [] 13 25 = [0]%float /\
  option_map (fun r => chikou r)
    (ichimoku (A:=float64) [5]%float [5]%float [5]%float 9 26 52 2)
  = Some [nan; nan]%float.
Proof. repeat split; vm_compute; reflexivity. Qed.

(** ** Arithmetic on the extended reals *)


Section XRealFacts.
Local Open Scope R_scope.








Lemma xr_lt_fin a b : XR.lt (XFin a) (XFin b) = true <-> a < b.
Proof. apply XROrder.Rltb_true. Qed.

Lemma xr_lt_fin_false a b : XR.lt (XFin a) (XFin b) = false <-> b <= a.
Proof. apply XROrder.Rltb_false. Qed.


End XRealFacts.

(** ** RSI, in exact arithmetic *)

Section RsiShape.
Context {A : Arith}.


End RsiShape.

Section RsiFacts.
Local Open Scope R_scope.

















End RsiFacts.


(** ** Williams %R, in exact arithmetic *)

Section WprFacts.
Local Open Scope R_scope.



Lemma in_counter (len j : Z) : In j (counter 0 len) <-> (0 <= j < len)%Z.
Proof.
  unfold counter. rewrite in_map_iff. split.
  - intros (k & <- & Hk). apply in_seq in Hk. lia.
  - intros H. exists (Z.to_nat j). split; [lia|]. apply in_seq. lia.
Qed.




End WprFacts.

(** ** The recursive family: once finite, finite *)

Section FiniteFacts.
Local Open Scope R_scope.











End FiniteFacts.

Section EmaShape.
Context {A : Arith}.

Lemma ema_loop_step (multiplier e0 x0 : num) (rest : list num) (k : nat) (e x : num) :
  nth_error (e0 :: ema_loop multiplier e0 rest) k = Some e ->
  nth_error (x0 :: rest) (S k) = Some x ->
  nth_error (e0 :: ema_loop multiplier e0 rest) (S k)
  = Some ((x - e) * multiplier + e).
Proof.
  revert e0 x0 k. induction rest as [|x1 rest IH]; intros e0 x0 k He Hx.
  { destruct k; discriminate. }
  destruct k as [|k].
  - simpl in *. injection He as <-. injection Hx as <-. reflexivity.
  - simpl in He, Hx. cbn [ema_loop nth_error]. cbn [nth_error] in IH.
    apply (IH _ x1 k); assumption.
Qed.

(** Every output of [ema] after the first is one step from the output before. *)
Lemma ema_step (source : list num) (length : Z) (k : nat) (e x : num) :
  nth_error (ema source length) k = Some e ->
  nth_error source (S k) = Some x ->
  nth_error (ema source length) (S k)
  = Some ((x - e) * (#2 / (#length + #1)) + e).
Proof.
  destruct source as [|x0 rest]; [discriminate|].
  unfold ema. apply ema_loop_step.
Qed.

End EmaShape.

Section MoreFiniteFacts.
Local Open Scope R_scope.


End MoreFiniteFacts.

Section SuperTrendFinite.
Local Open Scope R_scope.





End SuperTrendFinite.



(** A NaN input after the warm-up: [ema] is NaN from there on, [rma] holds its
    value, and [supertrend] can emit NaN at the bar whose high is NaN. *)
Example NaN_input_after_warmup :
  ema (A:=float64) [1; nan; 2]%float 2 = [1; nan; nan]%float /\
  rma (A:=float64) [1; 3; nan; 5]%float 2 = [nan; 2; 2; 3.5]%float /\
  fst (supertrend (A:=float64) [2; 3; nan; 5]%float [0; 1; 2; 3]%float
         [1; 5; 5; 4]%float 1%float 2)
  = [nan; 4; nan; 6]%float.
Proof. repeat split; vm_compute; reflexivity. Qed.

(** ** The theorems at concrete inputs *)

Lemma zero_denominator_sentinels_witness :
  nth_error (rsi (A:=float64) [0; 0; 0]%float 1) 2 = Some 100%float /\
  nth_error (stoch_rawK (A:=float64) [0; 0; 0]%float [0; 0; 0]%float [0; 0; 0]%float 1) 1
  = Some 50%float /\
  nth_error (cci (A:=float64) [0; 0; 0]%float [0; 0; 0]%float [0; 0; 0]%float 1) 1
  = Some 0%float /\
  nth_error (bbw (A:=float64) [0; 0; 0]%float 1 2%float) 1 = Some 0%float /\
  nth_error (kcw (A:=float64) [0; 0; 0]%float [0; 0; 0]%float [0; 0; 0]%float 1 2%float 1) 1
  = Some 0%float /\
  nth_error (cmo (A:=float64) [0; 0; 0]%float 1) 1 = Some 0%float /\
  nth_error (tsi (A:=float64) [0; 0; 0]%float 1 1) 1 = Some 0%float.
Proof.
  destruct (@zero_denominator_sentinels float64
              [0; 0; 0]%float [0; 0; 0]%float [0; 0; 0]%float [0; 0; 0]%float
              1%Z 1%Z 1%Z 1%Z 1%Z 2%float 1%nat)
    as (H1 & H2 & H3 & H4 & H5 & H6 & H7).
  refine (conj (H1 _ _) (conj (H2 _ _) (conj (H3 _ _) (conj (H4 _ _)
            (conj (H5 _ _) (conj (H6 _ _ _) (H7 _ _)))))));
    try (vm_compute; reflexivity); try (simpl; lia); try lia.
Defined.

Lemma crossover_crossunder_exclusive_witness :
  nth_error (crossover (A:=float64) [1; 3]%float [2; 2]%float) 1 = Some true /\
  nth_error (crossunder (A:=float64) [1; 3]%float [2; 2]%float) 1 = Some false /\
  true && false = false.
Proof.
  assert (H1 : nth_error (crossover (A:=float64) [1; 3]%float [2; 2]%float) 1 = Some true)
    by reflexivity.
  assert (H2 : nth_error (crossunder (A:=float64) [1; 3]%float [2; 2]%float) 1 = Some false)
    by reflexivity.
  split; [exact H1|]. split; [exact H2|].
  exact (proj1 (@crossover_crossunder_exclusive float64 float64_laws
                  [1; 3]%float [2; 2]%float 1%nat true false H1 H2)).
Defined.




(** ** NaN is absorbing, on binary64 and on the extended reals *)

Module F64NaN.
Import F64Key.

Lemma is_nan_inv x : PrimFloat.is_nan x = true -> Prim2SF x = S754_nan.
Proof.
  intros H. rewrite <- F64Order.is_nan_Prim2SF in H.
  destruct (Prim2SF x); try discriminate. reflexivity.
Qed.

Lemma is_nan_of_SF x : Prim2SF x = S754_nan -> PrimFloat.is_nan x = true.
Proof. intros H. rewrite <- F64Order.is_nan_Prim2SF, H. reflexivity. Qed.

Lemma add_nan_l x y : PrimFloat.is_nan x = true -> PrimFloat.is_nan (x + y) = true.
Proof.
  intros H. apply is_nan_of_SF. rewrite add_spec, (@is_nan_inv _ H). reflexivity.
Qed.

Lemma add_nan_r x y : PrimFloat.is_nan y = true -> PrimFloat.is_nan (x + y) = true.
Proof.
  intros H. apply is_nan_of_SF. rewrite add_spec, (@is_nan_inv _ H).
  destruct (Prim2SF x) as [ | | | ]; reflexivity.
Qed.

Lemma sub_nan_l x y : PrimFloat.is_nan x = true -> PrimFloat.is_nan (x - y) = true.
Proof.
  intros H. apply is_nan_of_SF. rewrite sub_spec, (@is_nan_inv _ H). reflexivity.
Qed.

Lemma sub_nan_r x y : PrimFloat.is_nan y = true -> PrimFloat.is_nan (x - y) = true.
Proof.
  intros H. apply is_nan_of_SF. rewrite sub_spec, (@is_nan_inv _ H).
  destruct (Prim2SF x) as [ | | | ]; reflexivity.
Qed.

Lemma mul_nan_l x y : PrimFloat.is_nan x = true -> PrimFloat.is_nan (x * y) = true.
Proof.
  intros H. apply is_nan_of_SF. rewrite mul_spec, (@is_nan_inv _ H). reflexivity.
Qed.

Lemma mul_nan_r x y : PrimFloat.is_nan y = true -> PrimFloat.is_nan (x * y) = true.
Proof.
  intros H. apply is_nan_of_SF. rewrite mul_spec, (@is_nan_inv _ H).
  destruct (Prim2SF x) as [ | | | ]; reflexivity.
Qed.

Lemma div_nan_l x y : PrimFloat.is_nan x = true -> PrimFloat.is_nan (x / y) = true.
Proof.
  intros H. apply is_nan_of_SF. rewrite div_spec, (@is_nan_inv _ H). reflexivity.
Qed.

Lemma div_nan_r x y : PrimFloat.is_nan y = true -> PrimFloat.is_nan (x / y) = true.
Proof.
  intros H. apply is_nan_of_SF. rewrite div_spec, (@is_nan_inv _ H).
  destruct (Prim2SF x) as [ | | | ]; reflexivity.
Qed.

End F64NaN.

Lemma float64_nan_laws : NaNLaws float64.
Proof.
  constructor; cbn [isNaN add sub mul div of_Z float64 num].
  - apply F64NaN.add_nan_l.
  - apply F64NaN.add_nan_r.
  - apply F64NaN.sub_nan_l.
  - apply F64NaN.sub_nan_r.
  - apply F64NaN.mul_nan_l.
  - apply F64NaN.mul_nan_r.
  - apply F64NaN.div_nan_l.
  - apply F64NaN.div_nan_r.
  - vm_compute. reflexivity.
Qed.


(** ** A NaN input: what it does to the averages without a NaN guard *)

Section NaNAbsorbing.
Context {A : Arith} {N : NaNLaws A}.

Lemma ema_head (source : list num) (length : Z) :
  nth_error (ema source length) 0 = nth_error source 0.
Proof. destruct source; reflexivity. Qed.

Lemma ema_NaN_step (source : list num) (length : Z) (k : nat) (e : num) :
  nth_error (ema source length) k = Some e -> isNaN e = true ->
  S k < List.length source ->
  exists y, nth_error (ema source length) (S k) = Some y /\ isNaN y = true.
Proof.
  intros He Hn Hk.
  destruct (nth_error source (S k)) as [x|] eqn:Ex;
    [|apply nth_error_None in Ex; lia].
  eexists. split; [eapply ema_step; eassumption|].
  apply add_NaN_r. exact Hn.
Qed.

Lemma ema_NaN_at (source : list num) (length : Z) (k : nat) (x : num) :
  nth_error source k = Some x -> isNaN x = true ->
  exists y, nth_error (ema source length) k = Some y /\ isNaN y = true.
Proof.
  intros Hx Hn. destruct k as [|k].
  - exists x. rewrite ema_head. tauto.
  - assert (Hk : k < List.length (ema source length)).
    { rewrite ema_length. apply PeanoNat.Nat.lt_succ_l.
      apply nth_error_Some. congruence. }
    destruct (nth_error (ema source length) k) as [e|] eqn:Ee;
      [|apply nth_error_None in Ee; lia].
    eexists. split; [eapply ema_step; eassumption|].
    apply add_NaN_l, mul_NaN_l, sub_NaN_l. exact Hn.
Qed.

(** X1.  [ema] has no NaN guard: a NaN input at bar [k] makes every output
    from bar [k] on NaN, whatever the length and the later inputs. *)
Theorem ema_NaN_is_absorbing (source : list num) (length : Z) (k i : nat) (x : num) :
  nth_error source k = Some x -> isNaN x = true ->
  k <= i -> i < List.length source ->
  exists y, nth_error (ema source length) i = Some y /\ isNaN y = true.
Proof.
  intros Hx Hn Hki. induction Hki as [|i Hki IH]; intros Hi.
  - eapply ema_NaN_at; eassumption.
  - destruct IH as (e & He & Hne); [lia|].
    eapply ema_NaN_step; eassumption.
Qed.

Lemma cum_loop_length (sum : num) (rest : list num) :
  List.length (cum_loop sum rest) = List.length rest.
Proof.
  revert sum. induction rest as [|s rest IH]; intros sum; simpl;
    [reflexivity | now rewrite IH].
Qed.

Lemma cum_length (source : list num) : List.length (cum source) = List.length source.
Proof. apply cum_loop_length. Qed.

(** The running sum: bar [i] holds the sum, from the left, of the first
    [i + 1] values. *)
Lemma cum_loop_nth (sum : num) (rest : list num) (i : nat) :
  i < List.length rest ->
  nth_error (cum_loop sum rest) i = Some (fold_left add (firstn (S i) rest) sum).
Proof.
  revert sum i. induction rest as [|s rest IH]; intros sum i Hi; simpl in Hi; [lia|].
  destruct i as [|i].
  - reflexivity.
  - cbn [cum_loop nth_error]. rewrite IH by lia. reflexivity.
Qed.

Lemma cum_nth (source : list num) (i : nat) :
  i < List.length source ->
  nth_error (cum source) i = Some (fold_left add (firstn (S i) source) #0).
Proof. apply cum_loop_nth. Qed.

Lemma fold_add_NaN_init (l : list num) (init : num) :
  isNaN init = true -> isNaN (fold_left add l init) = true.
Proof.
  revert init. induction l as [|x l IH]; intros init H; simpl; [exact H|].
  apply IH, add_NaN_l, H.
Qed.

Lemma fold_add_NaN_in (l : list num) (init x : num) :
  In x l -> isNaN x = true -> isNaN (fold_left add l init) = true.
Proof.
  revert init. induction l as [|y l IH]; intros init Hin H; simpl; [destruct Hin|].
  destruct Hin as [->|Hin].
  - apply fold_add_NaN_init, add_NaN_r, H.
  - now apply IH.
Qed.

Lemma cum_NaN_from (source : list num) (k i : nat) (x : num) :
  nth_error source k = Some x -> isNaN x = true ->
  k <= i -> i < List.length source ->
  exists y, nth_error (cum source) i = Some y /\ isNaN y = true.
Proof.
  intros Hx Hn Hki Hi. eexists. split; [apply cum_nth, Hi|].
  apply fold_add_NaN_in with (x := x); [|exact Hn].
  apply nth_error_In with (n := k). rewrite nth_error_firstn.
  destruct (Nat.ltb_spec k (S i)); [exact Hx | lia].
Qed.

(** A window sum [sum += f(j)] is NaN as soon as one term is. *)
Lemma window_sum_NaN (f : Z -> num) (l : list Z) (init : num) (j : Z) :
  In j l -> isNaN (f j) = true ->
  isNaN (fold_left (fun sum j => sum + f j) l init) = true.
Proof.
  intros Hin H.
  assert (E : forall l init, fold_left (fun sum j => sum + f j) l init
                             = fold_left add (map f l) init).
  { clear. induction l as [|y l IH]; intros init; simpl; [reflexivity | apply IH]. }
  rewrite E. apply fold_add_NaN_in with (x := f j); [|exact H].
  apply in_map, Hin.
Qed.

Lemma wma_sum_NaN_init (source : list num) (len i : Z) (l : list Z) (sum ws : num) :
  isNaN sum = true ->
  isNaN (fst (fold_left (fun '(sum, weightSum) j =>
                           let weight := #(len - j) in
                           (sum + source.[i - j] * weight, weightSum + weight))
                        l (sum, ws))) = true.
Proof.
  revert sum ws. induction l as [|y l IH]; intros sum ws H; simpl; [exact H|].
  apply IH, add_NaN_l, H.
Qed.

Lemma wma_sum_NaN (source : list num) (len i : Z) (l : list Z) (sum ws : num) (j : Z) :
  In j l -> isNaN source.[i - j] = true ->
  isNaN (fst (fold_left (fun '(sum, weightSum) j =>
                           let weight := #(len - j) in
                           (sum + source.[i - j] * weight, weightSum + weight))
                        l (sum, ws))) = true.
Proof.
  revert sum ws. induction l as [|y l IH]; intros sum ws Hin H; simpl; [destruct Hin|].
  destruct Hin as [->|Hin].
  - apply wma_sum_NaN_init, add_NaN_r, mul_NaN_l, H.
  - now apply IH.
Qed.

Lemma sma_nth (source : list num) (length : Z) (i : nat) :
  i < List.length source ->
  nth_error (sma source length) i =
  Some (if (Z.of_nat i <? length - 1)%Z then NaN
        else fold_left (fun sum j => sum + source.[Z.of_nat i - j]) (counter 0 length) #0
             / #length).
Proof.
  intros Hi. unfold sma. rewrite for_push_nth_error by lia. reflexivity.
Qed.

Lemma wma_nth (source : list num) (length : Z) (i : nat) :
  i < List.length source ->
  nth_error (wma source length) i =
  Some (if (Z.of_nat i <? length - 1)%Z then NaN
        else let '(sum, weightSum) :=
               fold_left (fun '(sum, weightSum) j =>
                            let weight := #(length - j) in
                            (sum + source.[Z.of_nat i - j] * weight, weightSum + weight))
                         (counter 0 length) (#0, #0) in
             sum / weightSum).
Proof.
  intros Hi. unfold wma. rewrite for_push_nth_error by lia. reflexivity.
Qed.

Lemma wma_length (source : list num) (length : Z) :
  List.length (wma source length) = List.length source.
Proof. unfold wma. rewrite for_push_length. lia. Qed.

End NaNAbsorbing.

Section WindowNaN.
Context {A : Arith} {L : ArithLaws A} {N : NaNLaws A}.

Lemma sma_window_NaN (source : list num) (length : Z) (i : nat) (j : Z) :
  i < List.length source -> (0 <= j < length)%Z ->
  isNaN source.[Z.of_nat i - j] = true ->
  exists y, nth_error (sma source length) i = Some y /\ isNaN y = true.
Proof.
  intros Hi Hj Hn. eexists. split; [apply sma_nth, Hi|].
  destruct (Z.of_nat i <? length - 1)%Z; [apply isNaN_NaN|].
  apply div_NaN_l.
  apply window_sum_NaN with (f := fun j => source.[Z.of_nat i - j]) (j := j);
    [apply in_counter, Hj | exact Hn].
Qed.

Lemma wma_window_NaN (source : list num) (length : Z) (i : nat) (j : Z) :
  i < List.length source -> (0 <= j < length)%Z ->
  isNaN source.[Z.of_nat i - j] = true ->
  exists y, nth_error (wma source length) i = Some y /\ isNaN y = true.
Proof.
  intros Hi Hj Hn. eexists. split; [apply wma_nth, Hi|].
  destruct (Z.of_nat i <? length - 1)%Z; [apply isNaN_NaN|].
  pose proof (@wma_sum_NaN A N source length (Z.of_nat i) (counter 0 length) #0 #0 j) as K.
  destruct (fold_left _ (counter 0 length) (#0, #0)) as [sum ws].
  apply div_NaN_l. apply K; [apply in_counter, Hj | exact Hn].
Qed.

(** X2.  A NaN anywhere in the window makes the average of that bar NaN:
    [sma] and [wma] sum the window without looking for NaN. *)
Theorem windowed_average_NaN_in_window (source : list num) (length : Z) (i : nat) (j : Z) :
  i < List.length source -> (0 <= j < length)%Z ->
  isNaN source.[Z.of_nat i - j] = true ->
  (exists y, nth_error (sma source length) i = Some y /\ isNaN y = true) /\
  (exists y, nth_error (wma source length) i = Some y /\ isNaN y = true).
Proof.
  intros Hi Hj Hn. split; [eapply sma_window_NaN | eapply wma_window_NaN]; eassumption.
Qed.

(** An average over an empty window (a length of 0 or less) divides 0 by the
    0 sum of the weights. *)
Lemma wma_empty_window (source : list num) (length : Z) (i : nat) :
  i < List.length source -> (length <= 0)%Z ->
  exists y, nth_error (wma source length) i = Some y /\ isNaN y = true.
Proof.
  intros Hi Hl. eexists. split; [apply wma_nth, Hi|].
  destruct (Z.of_nat i <? length - 1)%Z; [apply isNaN_NaN|].
  unfold counter. replace (Z.to_nat (length - 0)) with 0%nat by lia.
  simpl. apply zero_div_zero.
Qed.

(** X3.  The warm-up of [hma] is longer than its length: the first
    [length - 1 + (sqrtLen - 1)] outputs are NaN, the first [length - 1] bars
    for the long average and [sqrtLen - 1] more for the average of the
    difference. *)
Theorem hma_warmup (Math_floor_sqrt : Z -> Z) (source : list num) (length : Z) (i : nat) :
  i < List.length source ->
  (Z.of_nat i < length - 1 + (Math_floor_sqrt length - 1))%Z ->
  exists y, nth_error (hma Math_floor_sqrt source length) i = Some y /\ isNaN y = true.
Proof.
  intros Hi Hw. unfold hma.
  set (diff := mapi _ (wma source (length / 2))).
  assert (Hd : List.length diff = List.length source).
  { unfold diff. now rewrite mapi_length, wma_length. }
  destruct (Z.le_gt_cases (Math_floor_sqrt length) 0) as [Hs|Hs].
  { apply wma_empty_window; [lia | exact Hs]. }
  apply wma_window_NaN with (j := (Math_floor_sqrt length - 1)%Z); [lia | lia |].
  destruct (Z.lt_ge_cases (Z.of_nat i - (Math_floor_sqrt length - 1)) 0) as [Hneg|Hpos].
  { rewrite get_outside by lia. apply isNaN_NaN. }
  set (k := Z.to_nat (Z.of_nat i - (Math_floor_sqrt length - 1))).
  replace (Z.of_nat i - (Math_floor_sqrt length - 1))%Z with (Z.of_nat k) by (unfold k; lia).
  assert (Hk : k < List.length source) by (unfold k; lia).
  destruct (@mapi_nth_error_Some A num (fun v i => #2 * v - (wma source length).[i])
              (wma source (length / 2)) k) as (v & _ & Ev).
  { rewrite wma_length. exact Hk. }
  fold diff in Ev. rewrite (get_nth_error _ _ Ev).
  apply sub_NaN_r.
  rewrite (get_nth_error _ _ (wma_nth source length Hk)).
  replace (Z.of_nat k <? length - 1)%Z with true; [apply isNaN_NaN|].
  symmetry. apply Z.ltb_lt. unfold k. lia.
Qed.

Lemma typical_length (high low close : list num) :
  List.length (typical high low close) = List.length high.
Proof. unfold typical. apply mapi_length. Qed.

Lemma get_in_range (a : list num) (k : nat) :
  k < List.length a -> nth_error a k = Some a.[Z.of_nat k].
Proof.
  intros Hk. destruct (nth_error a k) as [x|] eqn:E.
  - now rewrite (get_nth_error _ _ E).
  - apply nth_error_None in E. lia.
Qed.

(** X4.  [vwap] accumulates from the first bar and never resets: one NaN in
    the high, low, close or volume of bar [k] makes [vwap] NaN from bar [k] to
    the end. *)
Theorem vwap_NaN_is_absorbing (high low close volume : list num) (k i : nat) :
  k < List.length high ->
  isNaN high.[Z.of_nat k] || isNaN low.[Z.of_nat k] || isNaN close.[Z.of_nat k]
    || isNaN volume.[Z.of_nat k] = true ->
  k <= i -> i < List.length high ->
  exists y, nth_error (vwap high low close volume) i = Some y /\ isNaN y = true.
Proof.
  intros Hk Hn Hki Hi. unfold vwap.
  set (tp := typical high low close).
  set (tpVol := mapi (fun t i => t * volume.[i]) tp).
  assert (Ltp : List.length tp = List.length high) by apply typical_length.
  assert (LtpVol : List.length tpVol = List.length high).
  { unfold tpVol. now rewrite mapi_length. }
  (* the money flow of bar k is NaN *)
  assert (Hmf : exists x, nth_error tpVol k = Some x /\ isNaN x = true).
  { destruct (@mapi_nth_error_Some A num (fun t i => t * volume.[i]) tp k) as (t & Et & Ev);
      [lia|].
    fold tpVol in Ev. eexists. split; [exact Ev|].
    destruct (isNaN volume.[Z.of_nat k]) eqn:Evol; [now apply mul_NaN_r|].
    apply mul_NaN_l.
    destruct (@mapi_nth_error_Some A num
                (fun h i => (h + low.[i] + close.[i]) / #3) high k Hk) as (h & Eh & Et').
    fold (typical high low close) in Et'. fold tp in Et'.
    rewrite Et in Et'. injection Et' as ->.
    rewrite (get_nth_error _ _ Eh) in Hn.
    apply div_NaN_l.
    destruct (isNaN h) eqn:E1; [now apply add_NaN_l, add_NaN_l|].
    destruct (isNaN low.[Z.of_nat k]) eqn:E2; [now apply add_NaN_l, add_NaN_r|].
    destruct (isNaN close.[Z.of_nat k]) eqn:E3; [now apply add_NaN_r|].
    discriminate. }
  destruct Hmf as (x & Ex & Hx).
  destruct (@cum_NaN_from A N tpVol k i x Ex Hx Hki) as (c & Ec & Hc); [lia|].
  destruct (@mapi_nth_error_Some A num
              (fun c i => if (cum volume).[i] === #0 then NaN else c / (cum volume).[i])
              (cum tpVol) i) as (c' & Ec' & Ev).
  { rewrite cum_length. lia. }
  rewrite Ec in Ec'. injection Ec' as <-.
  eexists. split; [exact Ev|].
  destruct ((cum volume).[Z.of_nat i] === #0); [apply isNaN_NaN | now apply div_NaN_l].
Qed.

End WindowNaN.

(** ** [barssince] and [valuewhen]: the bars at which a condition held *)

Section ConditionFacts.
Context {A : Arith}.

Lemma true_bars_S (condition : list bool) (n : nat) :
  true_bars condition (S n)
  = true_bars condition n ++ (if nth n condition false then [n] else []).
Proof.
  unfold true_bars. rewrite seq_S, filter_app. simpl.
  destruct (nth n condition false); reflexivity.
Qed.

Lemma true_bars_cons (c : bool) (rest : list bool) (n : nat) :
  true_bars (c :: rest) (S n)
  = (if c then [0%nat] else []) ++ map S (true_bars rest n).
Proof.
  unfold true_bars. cbn [seq filter nth]. rewrite <- seq_shift, filter_map_swap.
  cbn [nth]. destruct c; reflexivity.
Qed.

Lemma true_bars_lt (condition : list bool) (n k : nat) :
  In k (true_bars condition n) -> k < n /\ nth k condition false = true.
Proof.
  unfold true_bars. rewrite filter_In, in_seq. intros [H1 H2]. split; [lia | exact H2].
Qed.

Lemma barssince_loop_length (count : num) (rest : list bool) :
  List.length (barssince_loop count rest) = List.length rest.
Proof.
  revert count. induction rest as [|c rest IH]; intros count; simpl;
    [reflexivity | now rewrite IH].
Qed.

Lemma barssince_loop_step (count : num) (rest : list bool) (k : nat) (prev : num) (c : bool) :
  nth_error (barssince_loop count rest) k = Some prev ->
  nth_error rest (S k) = Some c ->
  nth_error (barssince_loop count rest) (S k)
  = Some (if c then #0 else if negb (isNaN prev) then prev + #1 else prev).
Proof.
  revert count k. induction rest as [|c0 rest IH]; intros count k Hp Hc.
  { destruct k; discriminate. }
  destruct k as [|k].
  - simpl in Hp. injection Hp as <-. destruct rest as [|c1 rest]; [discriminate|].
    simpl in Hc. injection Hc as <-. reflexivity.
  - simpl in Hp, Hc. cbn [barssince_loop nth_error]. now apply IH.
Qed.

Lemma valuewhen_loop_length (source : list num) (occurrence : Z) (trueIndices : list Z)
    (i : Z) (rest : list bool) :
  List.length (valuewhen_loop source occurrence trueIndices i rest) = List.length rest.
Proof.
  revert trueIndices i. induction rest as [|c rest IH]; intros trueIndices i; simpl;
    [reflexivity | now rewrite IH].
Qed.

(** The invariant of the loop of [valuewhen]: after bar [p] the local
    [trueIndices] holds what it held before the loop and the true bars met
    since. *)
Lemma valuewhen_loop_nth (source : list num) (occurrence : Z) (trueIndices : list Z)
    (i0 : Z) (rest : list bool) (p : nat) :
  p < List.length rest ->
  nth_error (valuewhen_loop source occurrence trueIndices i0 rest) p =
  Some (let t := trueIndices
                 ++ map (fun j => (i0 + Z.of_nat j)%Z) (true_bars rest (S p)) in
        let n := Z.of_nat (List.length t) in
        if (n >? occurrence)%Z
        then match nth_error t (Z.to_nat (n - 1 - occurrence)) with
             | Some k => source.[k]
             | None => NaN
             end
        else NaN).
Proof.
  revert trueIndices i0 p. induction rest as [|c rest IH]; intros trueIndices i0 p Hp;
    simpl in Hp; [lia|].
  rewrite true_bars_cons, map_app, map_map, app_assoc.
  replace (map (fun j => (i0 + Z.of_nat j)%Z) (if c then [0%nat] else []))
    with (if c then [i0] else @nil Z)
    by (destruct c; cbn [map]; rewrite ?Z.add_0_r; reflexivity).
  replace (trueIndices ++ (if c then [i0] else []))
    with (if c then trueIndices ++ [i0] else trueIndices)
    by (destruct c; rewrite ?app_nil_r; reflexivity).
  destruct p as [|p].
  - cbn [valuewhen_loop nth_error]. unfold true_bars. cbn [seq filter map].
    rewrite app_nil_r. reflexivity.
  - cbn [valuewhen_loop nth_error]. rewrite IH by lia.
    erewrite (map_ext (fun x => (i0 + Z.of_nat (S x))%Z)); [reflexivity|].
    intros j. cbv beta. lia.
Qed.

(** X6.  [valuewhen(condition, source, n)[i]] is [source] at the [n]-th most
    recent bar, up to and including [i], at which the condition held ([n = 0]
    is the latest), and NaN while the condition has held fewer than [n + 1]
    times. *)
Theorem valuewhen_reads_nth_latest_true_bar (condition : list bool) (source : list num)
    (occurrence : Z) (i : nat) :
  (0 <= occurrence)%Z -> i < List.length condition ->
  nth_error (valuewhen condition source occurrence) i =
  Some (match nth_error (rev (true_bars condition (S i))) (Z.to_nat occurrence) with
        | Some k => source.[Z.of_nat k]
        | None => NaN
        end).
Proof.
  intros Ho Hi. unfold valuewhen. rewrite valuewhen_loop_nth by exact Hi.
  cbn zeta. cbn [app]. f_equal.
  replace (map (fun j => (0 + Z.of_nat j)%Z) (true_bars condition (S i)))
    with (map Z.of_nat (true_bars condition (S i)))
    by (apply map_ext; intros; lia).
  rewrite length_map, nth_error_rev.
  set (t := true_bars condition (S i)).
  destruct (Z.gtb_spec (Z.of_nat (List.length t)) occurrence) as [Hgt|Hle].
  - destruct (Nat.ltb_spec (Z.to_nat occurrence) (List.length t)) as [_|Hc]; [|lia].
    replace (Z.to_nat (Z.of_nat (List.length t) - 1 - occurrence))
      with (List.length t - S (Z.to_nat occurrence))%nat by lia.
    rewrite nth_error_map.
    destruct (nth_error t (List.length t - S (Z.to_nat occurrence))); reflexivity.
  - destruct (Nat.ltb_spec (Z.to_nat occurrence) (List.length t)) as [Hc|_]; [lia|].
    reflexivity.
Qed.

Context {L : ArithLaws A}.

Lemma barssince_head (condition : list bool) (c : bool) :
  nth_error condition 0 = Some c ->
  nth_error (barssince condition) 0 = Some (if c then #0 else NaN).
Proof.
  destruct condition as [|c0 rest]; [discriminate|]. intros [= <-].
  unfold barssince. cbn [barssince_loop nth_error]. rewrite isNaN_NaN. reflexivity.
Qed.

(** X5.  [barssince(condition)[i]] is the number of bars since the latest bar,
    up to and including [i], at which the condition held, and NaN before the
    condition has held at all.  The count is exact as long as counting in
    numbers is ([n + 1] is the number of the integer [n + 1]). *)
Theorem barssince_counts_from_latest_true_bar (condition : list bool) (i : nat) :
  (forall n : Z, (0 <= n < Z.of_nat i)%Z -> isNaN #n = false /\ #n + #1 = #(n + 1)) ->
  i < List.length condition ->
  nth_error (barssince condition) i =
  Some (match rev (true_bars condition (S i)) with
        | k :: _ => #(Z.of_nat i - Z.of_nat k)
        | [] => NaN
        end).
Proof.
  induction i as [|i IH]; intros Hcount Hi.
  - destruct condition as [|c rest]; [simpl in Hi; lia|].
    rewrite (@barssince_head (c :: rest) c eq_refl).
    unfold true_bars. cbn [seq filter nth]. destruct c; reflexivity.
  - destruct (nth_error condition (S i)) as [c|] eqn:Ec;
      [|apply nth_error_None in Ec; lia].
    unfold barssince in *.
    rewrite (@barssince_loop_step NaN condition i _ c (IH ltac:(intros; apply Hcount; lia)
                                                           ltac:(lia)) Ec).
    f_equal. rewrite (true_bars_S condition (S i)).
    rewrite (nth_error_nth _ _ false Ec), rev_app_distr.
    destruct c; cbn [rev app].
    { f_equal. lia. }
    destruct (rev (true_bars condition (S i))) as [|k t] eqn:Et.
    + rewrite isNaN_NaN. reflexivity.
    + assert (Hk : (k < S i)%nat).
      { apply (@true_bars_lt condition (S i) k). apply in_rev. rewrite Et. now left. }
      destruct (Hcount (Z.of_nat i - Z.of_nat k)%Z ltac:(lia)) as [Hn Hs].
      rewrite Hn. cbn [negb]. rewrite Hs. f_equal. lia.
Qed.

End ConditionFacts.

(** ** [rising], [falling], [cross] *)

Section CounterFacts.

Lemma in_counter_from (from len j : Z) : In j (counter from len) <-> (from <= j < len)%Z.
Proof.
  unfold counter. rewrite in_map_iff. split.
  - intros (k & <- & Hk). apply in_seq in Hk. lia.
  - intros H. exists (Z.to_nat (j - from)). split; [lia|]. apply in_seq. lia.
Qed.

Lemma counter_cons (from len : Z) :
  (from < len)%Z -> counter from len = from :: counter (from + 1) len.
Proof.
  intros H. unfold counter.
  replace (Z.to_nat (len - from)) with (S (Z.to_nat (len - (from + 1)))) by lia.
  cbn [seq map]. rewrite <- seq_shift, map_map. f_equal; [lia|].
  apply map_ext. intros k. lia.
Qed.

Lemma counter_snoc (from len : Z) :
  (from <= len)%Z -> counter from (len + 1) = counter from len ++ [len].
Proof.
  intros H. unfold counter.
  replace (Z.to_nat (len + 1 - from)) with (S (Z.to_nat (len - from))) by lia.
  rewrite seq_S, map_app. cbn [map]. do 2 f_equal. lia.
Qed.

Lemma counter_empty (from len : Z) : (len <= from)%Z -> counter from len = [].
Proof.
  intros H. unfold counter. replace (Z.to_nat (len - from)) with 0%nat by lia. reflexivity.
Qed.

End CounterFacts.

Section TrendTests.
Context {A : Arith} {L : ArithLaws A}.

Lemma rising_nth (source : list num) (length : Z) (i : nat) :
  i < List.length source ->
  nth_error (rising source length) i =
  Some (if (Z.of_nat i <? length)%Z then false
        else forallb (fun j => negb (source.[Z.of_nat i - j + 1] <=? source.[Z.of_nat i - j]))
                     (counter 1 (length + 1))).
Proof.
  intros Hi. unfold rising. rewrite mapi_nth_error.
  rewrite (get_in_range source Hi). reflexivity.
Qed.

Lemma falling_nth (source : list num) (length : Z) (i : nat) :
  i < List.length source ->
  nth_error (falling source length) i =
  Some (if (Z.of_nat i <? length)%Z then false
        else forallb (fun j => negb (source.[Z.of_nat i - j + 1] >=? source.[Z.of_nat i - j]))
                     (counter 1 (length + 1))).
Proof.
  intros Hi. unfold falling. rewrite mapi_nth_error.
  rewrite (get_in_range source Hi). reflexivity.
Qed.

Lemma not_le_lt (a b : num) :
  isNaN a = false -> isNaN b = false -> negb (a <=? b) = (b <? a).
Proof. intros Ha Hb. rewrite le_spec, Ha, Hb. cbn. apply negb_involutive. Qed.

(** X7.  On a window without NaN, [rising(source, length)[i]] is true exactly
    when there are [length] bars before bar [i] and each of the last [length]
    steps went strictly up. *)
Theorem rising_iff_each_step_up (source : list num) (length : Z) (i : nat) :
  i < List.length source ->
  (forall j, (0 <= j <= length)%Z -> (j <= Z.of_nat i)%Z ->
             isNaN source.[Z.of_nat i - j] = false) ->
  nth_error (rising source length) i = Some true <->
  (length <= Z.of_nat i)%Z /\
  forall j, (1 <= j <= length)%Z ->
            (source.[Z.of_nat i - j] <? source.[Z.of_nat i - j + 1]) = true.
Proof.
  intros Hi Hv. rewrite (rising_nth source length Hi).
  destruct (Z.ltb_spec (Z.of_nat i) length) as [Hlt|Hge].
  - split; [discriminate | lia].
  - split.
    + intros [= H]. split; [exact Hge|]. intros j Hj.
      rewrite forallb_forall in H. specialize (H j). rewrite in_counter_from in H.
      rewrite <- not_le_lt; [apply H; lia | |].
      * replace (Z.of_nat i - j + 1)%Z with (Z.of_nat i - (j - 1))%Z by lia.
        apply Hv; lia.
      * apply Hv; lia.
    + intros [_ H]. f_equal. apply forallb_forall. intros j Hj.
      apply in_counter_from in Hj. rewrite not_le_lt; [apply H; lia | |].
      * replace (Z.of_nat i - j + 1)%Z with (Z.of_nat i - (j - 1))%Z by lia.
        apply Hv; lia.
      * apply Hv; lia.
Qed.

(** X8.  With a length of at least 1, [rising] and [falling] are both true at
    a bar only if that bar or the bar before is NaN: a comparison with NaN is
    false, so a NaN step neither stops the one loop nor the other. *)
Theorem rising_and_falling_only_on_NaN (source : list num) (length : Z) (i : nat) :
  (1 <= length)%Z ->
  nth_error (rising source length) i = Some true ->
  nth_error (falling source length) i = Some true ->
  isNaN source.[Z.of_nat i] || isNaN source.[Z.of_nat i - 1] = true.
Proof.
  intros Hl Hr Hf.
  assert (Hi : i < List.length source).
  { assert (K : nth_error (rising source length) i <> None) by congruence.
    apply nth_error_Some in K. unfold rising in K. now rewrite mapi_length in K. }
  rewrite (rising_nth source length Hi) in Hr.
  rewrite (falling_nth source length Hi) in Hf.
  destruct (Z.of_nat i <? length)%Z; [discriminate|].
  injection Hr as Hr. injection Hf as Hf.
  rewrite forallb_forall in Hr, Hf.
  specialize (Hr 1%Z). specialize (Hf 1%Z). rewrite in_counter_from in Hr, Hf.
  replace (Z.of_nat i - 1 + 1)%Z with (Z.of_nat i) in Hr, Hf by lia.
  destruct (isNaN source.[Z.of_nat i]) eqn:E1; [reflexivity|].
  destruct (isNaN source.[Z.of_nat i - 1]) eqn:E2; [reflexivity|].
  rewrite (not_le_lt _ _ E1 E2) in Hr. rewrite (not_le_lt _ _ E2 E1) in Hf.
  specialize (Hr ltac:(lia)). specialize (Hf ltac:(lia)).
  rewrite (lt_asym _ _ Hr) in Hf. discriminate.
Qed.

Lemma mapb_from_nth_error (T : Type) (f : bool -> Z -> T) (a : list bool) (i : Z) (k : nat) :
  nth_error (mapb_from f i a) k =
  option_map (fun v => f v (i + Z.of_nat k)%Z) (nth_error a k).
Proof.
  revert i k. induction a as [|v a IH]; intros i [|k]; simpl; try reflexivity.
  - now rewrite Z.add_0_r.
  - rewrite IH. destruct (nth_error a k); simpl; [|reflexivity].
    do 2 f_equal. lia.
Qed.

Lemma getb_nth_error (a : list bool) (k : nat) (x : bool) :
  nth_error a k = Some x -> getb a (Z.of_nat k) = x.
Proof.
  intros H. unfold getb. destruct (Z.ltb_spec (Z.of_nat k) 0); [lia|].
  rewrite Nat2Z.id. now apply nth_error_nth.
Qed.

Lemma crossover_nth (s1 s2 : list num) (i : nat) :
  i < List.length s1 ->
  nth_error (crossover s1 s2) i =
  Some (if (Z.of_nat i =? 0)%Z then false
        else (s1.[Z.of_nat i] >? s2.[Z.of_nat i])
             && (s1.[Z.of_nat i - 1] <=? s2.[Z.of_nat i - 1])).
Proof.
  intros Hi. unfold crossover. rewrite mapi_nth_error.
  rewrite (get_in_range s1 Hi). reflexivity.
Qed.

Lemma crossunder_nth (s1 s2 : list num) (i : nat) :
  i < List.length s1 ->
  nth_error (crossunder s1 s2) i =
  Some (if (Z.of_nat i =? 0)%Z then false
        else (s1.[Z.of_nat i] <? s2.[Z.of_nat i])
             && (s1.[Z.of_nat i - 1] >=? s2.[Z.of_nat i - 1])).
Proof.
  intros Hi. unfold crossunder. rewrite mapi_nth_error.
  rewrite (get_in_range s1 Hi). reflexivity.
Qed.

Lemma cross_nth (s1 s2 : list num) (i : nat) :
  i < List.length s1 ->
  nth_error (cross s1 s2) i =
  Some ((if (Z.of_nat i =? 0)%Z then false
         else (s1.[Z.of_nat i] >? s2.[Z.of_nat i])
              && (s1.[Z.of_nat i - 1] <=? s2.[Z.of_nat i - 1]))
        || (if (Z.of_nat i =? 0)%Z then false
            else (s1.[Z.of_nat i] <? s2.[Z.of_nat i])
                 && (s1.[Z.of_nat i - 1] >=? s2.[Z.of_nat i - 1]))).
Proof.
  intros Hi. unfold cross, mapb. rewrite mapb_from_nth_error.
  rewrite (crossover_nth s1 s2 Hi). cbn [option_map]. rewrite Z.add_0_l.
  rewrite (getb_nth_error _ _ (crossunder_nth s1 s2 Hi)). reflexivity.
Qed.

End TrendTests.

(** X9.  On bars both series have, a crossover of [s1] over [s2] is a
    crossunder of [s2] under [s1], and [cross] does not depend on the order of
    its arguments. *)
Theorem cross_is_symmetric {A : Arith} (s1 s2 : list num) (i : nat) :
  i < List.length s1 -> i < List.length s2 ->
  nth_error (crossover s1 s2) i = nth_error (crossunder s2 s1) i /\
  nth_error (cross s1 s2) i = nth_error (cross s2 s1) i.
Proof.
  intros H1 H2. split.
  - rewrite (crossover_nth s1 s2 H1), (crossunder_nth s2 s1 H2). reflexivity.
  - rewrite (cross_nth s1 s2 H1), (cross_nth s2 s1 H2). f_equal. apply orb_comm.
Qed.

(** ** [pivothigh], [pivotlow], [highestbars], [lowestbars] *)

Section PivotFacts.
Context {A : Arith}.

Lemma set_at_length (result : list num) (k : Z) (v : num) :
  (k < Z.of_nat (List.length result))%Z ->
  List.length (set_at result k v) = List.length result.
Proof.
  intros Hk. unfold set_at. destruct (Z.ltb_spec k 0); [reflexivity|].
  rewrite length_app. cbn [List.length]. rewrite length_firstn, length_skipn. lia.
Qed.

Lemma set_at_nth_error (result : list num) (k : Z) (v : num) (j : nat) :
  (k < Z.of_nat (List.length result))%Z ->
  nth_error (set_at result k v) j =
  if (Z.of_nat j =? k)%Z then Some v else nth_error result j.
Proof.
  intros Hk. unfold set_at. destruct (Z.ltb_spec k 0) as [Hneg|Hpos].
  { destruct (Z.eqb_spec (Z.of_nat j) k); [lia | reflexivity]. }
  destruct (Z.eqb_spec (Z.of_nat j) k) as [E|E].
  - rewrite nth_error_app2 by (rewrite length_firstn; lia).
    rewrite length_firstn. replace (j - Nat.min (Z.to_nat k) (List.length result))%nat
      with 0%nat by lia. reflexivity.
  - destruct (Nat.lt_ge_cases j (Z.to_nat k)) as [Hlt|Hge].
    + rewrite nth_error_app1 by (rewrite length_firstn; lia).
      rewrite nth_error_firstn. destruct (Nat.ltb_spec j (Z.to_nat k)); [reflexivity | lia].
    + rewrite nth_error_app2 by (rewrite length_firstn; lia).
      rewrite length_firstn.
      replace (j - Nat.min (Z.to_nat k) (List.length result))%nat
        with (S (j - S (Z.to_nat k))) by lia.
      cbn [nth_error]. rewrite nth_error_skipn. f_equal. lia.
Qed.

(** The loop of [pivothigh] and [pivotlow] over the bars [from .. to - 1],
    for any test: bar [k] of the result holds [source[k - rightBars]] when
    bar [k - rightBars] was visited and passed the test, and is as before
    otherwise. *)
Lemma pivot_loop_nth (test : Z -> bool) (source : list num) (rightBars : Z) (n : nat) :
  forall (from to : Z) (result : list num) (k : nat),
  Z.to_nat (to - from) = n ->
  (to + rightBars <= Z.of_nat (List.length result))%Z ->
  nth_error (fold_left (fun result i =>
                          if test i then set_at result (i + rightBars) source.[i]
                          else result)
                       (counter from to) result) k =
  if (from <=? Z.of_nat k - rightBars)%Z && (Z.of_nat k - rightBars <? to)%Z
     && test (Z.of_nat k - rightBars)%Z
  then Some source.[Z.of_nat k - rightBars] else nth_error result k.
Proof.
  induction n as [|n IH]; intros from to result k Hn Hlen.
  - rewrite counter_empty by lia. cbn [fold_left].
    destruct (Z.leb_spec from (Z.of_nat k - rightBars)),
             (Z.ltb_spec (Z.of_nat k - rightBars) to); try reflexivity. lia.
  - rewrite counter_cons by lia. cbn [fold_left].
    set (result' := if test from then set_at result (from + rightBars) source.[from]
                    else result).
    assert (Hlen' : (to + rightBars <= Z.of_nat (List.length result'))%Z).
    { unfold result'. destruct (test from); [rewrite set_at_length by lia|]; lia. }
    rewrite (IH (from + 1)%Z to result' k ltac:(lia) Hlen'). unfold result'.
    destruct (Z.leb_spec (from + 1) (Z.of_nat k - rightBars)),
             (Z.leb_spec from (Z.of_nat k - rightBars)),
             (Z.ltb_spec (Z.of_nat k - rightBars) to); try lia; cbn [andb];
      try (destruct (test (Z.of_nat k - rightBars)%Z); [reflexivity|]).
    all: try (destruct (test from) eqn:Et; [|reflexivity];
              rewrite set_at_nth_error by lia;
              destruct (Z.eqb_spec (Z.of_nat k) (from + rightBars)); [lia | reflexivity]).
    (* the bar just visited: from = k - rightBars *)
    assert (E : (Z.of_nat k - rightBars = from)%Z) by lia. rewrite E.
    destruct (test from) eqn:Et; [|reflexivity].
    rewrite set_at_nth_error by lia.
    destruct (Z.eqb_spec (Z.of_nat k) (from + rightBars)); [reflexivity | lia].
Qed.

Lemma nth_error_repeat_NaN (n k : nat) :
  k < n -> nth_error (repeat (@NaN A) n) k = Some NaN.
Proof.
  intros H. rewrite nth_error_repeat by exact H. reflexivity.
Qed.

(** X10.  A pivot is reported [rightBars] bars late.  Bar [k] of [pivothigh]
    holds [source[k - rightBars]] when there are [leftBars] bars before bar
    [k - rightBars] and no bar among the [leftBars] before it and the
    [rightBars] after it is [>=] it; every other bar is NaN.  [pivotlow] is
    the same with [<=]. *)
Theorem pivots_are_reported_rightBars_late (source : list num) (leftBars rightBars : Z)
    (k : nat) :
  k < List.length source ->
  let p := (Z.of_nat k - rightBars)%Z in
  nth_error (pivothigh source leftBars rightBars) k =
  Some (if (leftBars <=? p)%Z
           && forallb (fun j => negb (source.[p - j] >=? source.[p]))
                      (counter 1 (leftBars + 1))
           && forallb (fun j => negb (source.[p + j] >=? source.[p]))
                      (counter 1 (rightBars + 1))
        then source.[p] else NaN) /\
  nth_error (pivotlow source leftBars rightBars) k =
  Some (if (leftBars <=? p)%Z
           && forallb (fun j => negb (source.[p - j] <=? source.[p]))
                      (counter 1 (leftBars + 1))
           && forallb (fun j => negb (source.[p + j] <=? source.[p]))
                      (counter 1 (rightBars + 1))
        then source.[p] else NaN).
Proof.
  intros Hk p. split.
  - unfold pivothigh.
    rewrite (@pivot_loop_nth (pivothigh_test source leftBars rightBars) source rightBars
               (Z.to_nat (Z.of_nat (List.length source) - rightBars - leftBars)))
      by (try reflexivity; rewrite repeat_length; lia).
    rewrite nth_error_repeat_NaN by exact Hk. fold p.
    replace (p <? Z.of_nat (List.length source) - rightBars)%Z with true
      by (symmetry; apply Z.ltb_lt; unfold p; lia).
    rewrite andb_true_r. unfold pivothigh_test.
    destruct (leftBars <=? p)%Z; cbn [andb]; [|reflexivity].
    destruct (forallb _ (counter 1 (leftBars + 1))); cbn [andb]; [|reflexivity].
    destruct (forallb _ (counter 1 (rightBars + 1))); reflexivity.
  - unfold pivotlow.
    rewrite (@pivot_loop_nth (pivotlow_test source leftBars rightBars) source rightBars
               (Z.to_nat (Z.of_nat (List.length source) - rightBars - leftBars)))
      by (try reflexivity; rewrite repeat_length; lia).
    rewrite nth_error_repeat_NaN by exact Hk. fold p.
    replace (p <? Z.of_nat (List.length source) - rightBars)%Z with true
      by (symmetry; apply Z.ltb_lt; unfold p; lia).
    rewrite andb_true_r. unfold pivotlow_test.
    destruct (leftBars <=? p)%Z; cbn [andb]; [|reflexivity].
    destruct (forallb _ (counter 1 (leftBars + 1))); cbn [andb]; [|reflexivity].
    destruct (forallb _ (counter 1 (rightBars + 1))); reflexivity.
Qed.

End PivotFacts.

Section ExtremeBars.
Context {A : Arith} {L : ArithLaws A}.

(** The scan of [highestbars] over the offsets [1 .. m - 1] of a window
    without NaN: [max] is the value at offset [maxIdx], no value met is above
    it, and every value met at a smaller offset is below it. *)
Lemma highestbars_scan_inv (source : list num) (i : Z) (m : nat) :
  (forall j, (0 <= j < Z.of_nat (S m))%Z -> isNaN source.[i - j] = false) ->
  let '(maxIdx, max) := highestbars_scan source (Z.of_nat (S m)) i in
  max = source.[i - maxIdx] /\ (0 <= maxIdx < Z.of_nat (S m))%Z /\
  (forall j, (0 <= j < Z.of_nat (S m))%Z -> (max <? source.[i - j]) = false) /\
  (forall j, (0 <= j < maxIdx)%Z -> (source.[i - j] <? max) = true).
Proof.
  unfold highestbars_scan. induction m as [|m IH]; intros Hv.
  - cbn. rewrite Z.sub_0_r. repeat split; try lia.
    intros j Hj. replace j with 0%Z by lia. rewrite Z.sub_0_r. apply lt_irrefl.
  - replace (Z.of_nat (S (S m))) with (Z.of_nat (S m) + 1)%Z by lia.
    rewrite counter_snoc by lia. rewrite fold_left_app. cbn [fold_left].
    specialize (IH ltac:(intros; apply Hv; lia)).
    destruct (fold_left _ (counter 1 (Z.of_nat (S m))) (0%Z, source.[i])) as [maxIdx max].
    destruct IH as (E & Hr & Hub & Hlt).
    destruct (max <? source.[i - Z.of_nat (S m)]) eqn:Ec.
    + split; [reflexivity|]. split; [lia|]. split.
      * intros j Hj. destruct (Z.eq_dec j (Z.of_nat (S m))) as [->|Hne]; [apply lt_irrefl|].
        destruct (source.[i - Z.of_nat (S m)] <? source.[i - j]) eqn:E2; [|reflexivity].
        rewrite <- (Hub j ltac:(lia)). symmetry. eapply lt_trans; eassumption.
      * intros j Hj.
        destruct (lt_cotrans _ source.[i - j] _ Ec ltac:(apply Hv; lia)) as [K|K];
          [|exact K].
        rewrite (Hub j ltac:(lia)) in K. discriminate.
    + split; [exact E|]. split; [lia|]. split; [|exact Hlt].
      intros j Hj. destruct (Z.eq_dec j (Z.of_nat (S m))) as [->|Hne]; [exact Ec|].
      apply Hub. lia.
Qed.

Lemma lowestbars_scan_inv (source : list num) (i : Z) (m : nat) :
  (forall j, (0 <= j < Z.of_nat (S m))%Z -> isNaN source.[i - j] = false) ->
  let '(minIdx, min) := lowestbars_scan source (Z.of_nat (S m)) i in
  min = source.[i - minIdx] /\ (0 <= minIdx < Z.of_nat (S m))%Z /\
  (forall j, (0 <= j < Z.of_nat (S m))%Z -> (source.[i - j] <? min) = false) /\
  (forall j, (0 <= j < minIdx)%Z -> (min <? source.[i - j]) = true).
Proof.
  unfold lowestbars_scan. induction m as [|m IH]; intros Hv.
  - cbn. rewrite Z.sub_0_r. repeat split; try lia.
    intros j Hj. replace j with 0%Z by lia. rewrite Z.sub_0_r. apply lt_irrefl.
  - replace (Z.of_nat (S (S m))) with (Z.of_nat (S m) + 1)%Z by lia.
    rewrite counter_snoc by lia. rewrite fold_left_app. cbn [fold_left].
    specialize (IH ltac:(intros; apply Hv; lia)).
    destruct (fold_left _ (counter 1 (Z.of_nat (S m))) (0%Z, source.[i])) as [minIdx min].
    destruct IH as (E & Hr & Hlb & Hgt).
    destruct (source.[i - Z.of_nat (S m)] <? min) eqn:Ec.
    + split; [reflexivity|]. split; [lia|]. split.
      * intros j Hj. destruct (Z.eq_dec j (Z.of_nat (S m))) as [->|Hne]; [apply lt_irrefl|].
        destruct (source.[i - j] <? source.[i - Z.of_nat (S m)]) eqn:E2; [|reflexivity].
        rewrite <- (Hlb j ltac:(lia)). symmetry. eapply lt_trans; eassumption.
      * intros j Hj.
        destruct (lt_cotrans _ source.[i - j] _ Ec ltac:(apply Hv; lia)) as [K|K];
          [exact K|].
        rewrite (Hlb j ltac:(lia)) in K. discriminate.
    + split; [exact E|]. split; [lia|]. split; [|exact Hgt].
      intros j Hj. destruct (Z.eq_dec j (Z.of_nat (S m))) as [->|Hne]; [exact Ec|].
      apply Hlb. lia.
Qed.

(** X11.  On a window without NaN, [highestbars] is minus the offset of the
    window's highest value, the most recent one if it occurs more than once:
    no value of the window is above the value at that offset, and every more
    recent value is strictly below it.  [lowestbars] is the same for the
    lowest value. *)
Theorem extreme_bars_point_at_latest_extreme (source : list num) (length : Z) (i : nat) :
  (1 <= length <= Z.of_nat i + 1)%Z -> i < List.length source ->
  (forall j, (0 <= j < length)%Z -> isNaN source.[Z.of_nat i - j] = false) ->
  (exists o, nth_error (highestbars source length) i = Some (- #o) /\
     (0 <= o < length)%Z /\
     (forall j, (0 <= j < length)%Z ->
                (source.[Z.of_nat i - o] <? source.[Z.of_nat i - j]) = false) /\
     (forall j, (0 <= j < o)%Z ->
                (source.[Z.of_nat i - j] <? source.[Z.of_nat i - o]) = true)) /\
  (exists o, nth_error (lowestbars source length) i = Some (- #o) /\
     (0 <= o < length)%Z /\
     (forall j, (0 <= j < length)%Z ->
                (source.[Z.of_nat i - j] <? source.[Z.of_nat i - o]) = false) /\
     (forall j, (0 <= j < o)%Z ->
                (source.[Z.of_nat i - o] <? source.[Z.of_nat i - j]) = true)).
Proof.
  intros Hl Hi Hv.
  assert (El : length = Z.of_nat (S (Z.to_nat (length - 1)))) by lia.
  split.
  - pose proof (@highestbars_scan_inv source (Z.of_nat i) (Z.to_nat (length - 1))) as K.
    rewrite <- El in K. specialize (K Hv).
    unfold highestbars. rewrite for_push_nth_error by lia.
    replace (Z.of_nat (0 + i)) with (Z.of_nat i) by lia.
    destruct (Z.ltb_spec (Z.of_nat i) (length - 1)); [lia|].
    destruct (highestbars_scan source length (Z.of_nat i)) as [o mx].
    destruct K as (E & Hr & Hub & Hlt). subst mx.
    exists o. cbn [fst]. repeat split; try assumption; lia.
  - pose proof (@lowestbars_scan_inv source (Z.of_nat i) (Z.to_nat (length - 1))) as K.
    rewrite <- El in K. specialize (K Hv).
    unfold lowestbars. rewrite for_push_nth_error by lia.
    replace (Z.of_nat (0 + i)) with (Z.of_nat i) by lia.
    destruct (Z.ltb_spec (Z.of_nat i) (length - 1)); [lia|].
    destruct (lowestbars_scan source length (Z.of_nat i)) as [o mn].
    destruct K as (E & Hr & Hlb & Hgt). subst mn.
    exists o. cbn [fst]. repeat split; try assumption; lia.
Qed.

End ExtremeBars.

(** ** Averages stay within the range of what they average (exact arithmetic) *)

Section WithinFacts.
Local Open Scope R_scope.


Lemma within_NaN_or (lo hi : R) (x : @num xreal) : within lo hi x -> NaN_or_within lo hi x.
Proof. now right. Qed.









End WithinFacts.

Section RecursiveWithin.
Local Open Scope R_scope.












End RecursiveWithin.

(** ** Bounds of the oscillators (exact arithmetic) *)

Section OscillatorBounds.
Local Open Scope R_scope.





End OscillatorBounds.

Section StochFacts.
Local Open Scope R_scope.









End StochFacts.

Section StochBounds.
Local Open Scope R_scope.








End StochBounds.

(** ** Bands, cumulative sums and the typical price (exact arithmetic) *)

Section BandFacts.
Local Open Scope R_scope.










End BandFacts.

(** ** [tsi]: the smoothed change never exceeds the smoothed absolute change *)

Section TsiFacts.
Local Open Scope R_scope.







End TsiFacts.

(** ** [dmi]: the directional indicators are percentages *)

Section DmiFacts.
Local Open Scope R_scope.








End DmiFacts.

Section KeltnerFacts.
Local Open Scope R_scope.








End KeltnerFacts.

Section CompositionFacts.
Context {A : Arith}.

(** X30.  [mom] and [change] are the same function, and [roc] is the momentum
    over the value [length] bars ago, times 100: NaN during the warm-up and
    where that value is 0. *)
Theorem roc_is_mom_over_base (source : list num) (length : Z) (i : nat) :
  i < List.length source ->
  mom source length = change source length /\
  exists m, nth_error (mom source length) i = Some m /\
            nth_error (roc source length) i =
            Some (if (Z.of_nat i <? length)%Z || (source.[Z.of_nat i - length] === #0)
                  then NaN else (m / source.[Z.of_nat i - length]) * #100).
Proof.
  intros Hi. split; [reflexivity|].
  destruct (@mapi_nth_error_Some A num
              (fun s i => if (i <? length)%Z then NaN else s - source.[i - length])
              source i Hi) as (s & Es & Em).
  eexists. split; [exact Em|].
  unfold roc. rewrite for_push_nth_error by lia.
  replace (Z.of_nat (0 + i)) with (Z.of_nat i) by lia.
  rewrite (get_nth_error _ _ Es).
  destruct (Z.of_nat i <? length)%Z; reflexivity.
Qed.

End CompositionFacts.

(** ** [highest] and [lowest]: the extremes of the window *)

Lemma float64_extreme_laws : ExtremeLaws float64.
Proof.
  constructor; cbn [isNaN neg Infinity lt strict_eq float64 num].
  - vm_compute. reflexivity.
  - vm_compute. reflexivity.
  - intros a b H. rewrite ltb_spec in H. unfold SFltb in H.
    destruct (SFcompare (Prim2SF a) (Prim2SF b)) as [[| |]|] eqn:Ec; try discriminate.
    split.
    + rewrite eqb_spec. unfold SFeqb. rewrite Ec. reflexivity.
    + apply F64Order.SFcompare_Lt in Ec. destruct Ec as (Na & Nb & Hlt).
      assert (Eg : SFcompare (Prim2SF b) (Prim2SF a) = Some Gt)
        by (apply F64Order.SFcompare_Gt; tauto).
      rewrite eqb_spec. unfold SFeqb. rewrite Eg. reflexivity.
Qed.

Lemma xreal_extreme_laws : ExtremeLaws xreal.
Proof.
  constructor; cbn [isNaN neg Infinity lt strict_eq xreal num].
  - reflexivity.
  - reflexivity.
  - intros a b H. unfold XR.strict_eq. rewrite H. cbn [negb].
    rewrite !andb_false_r. cbn [andb]. split; reflexivity.
Qed.

Section ExtremeValues.
Context {A : Arith} {L : ArithLaws A} {E : ExtremeLaws A}.

Lemma not_lt_trans (a b c : num) :
  (a <? b) = false -> (b <? c) = false -> isNaN b = false -> (a <? c) = false.
Proof.
  intros H1 H2 Hb. destruct (a <? c) eqn:Hac; [|reflexivity].
  destruct (lt_cotrans _ b _ Hac Hb) as [K|K]; congruence.
Qed.

Lemma lt_valid_r (a b : num) : (a <? b) = true -> isNaN b = false.
Proof.
  intros H. destruct (isNaN b) eqn:Eb; [|reflexivity].
  rewrite lt_NaN_r in H by exact Eb. discriminate.
Qed.

Lemma lt_valid_l (a b : num) : (a <? b) = true -> isNaN a = false.
Proof.
  intros H. destruct (isNaN a) eqn:Ea; [|reflexivity].
  rewrite lt_NaN_l in H by exact Ea. discriminate.
Qed.

(** The scan of [highest] from a number [acc] over the offsets [l]: the
    result is a number not below [acc] nor below any number met, and it is
    [acc] or one of the numbers met. *)
Lemma highest_fold_inv (source : list num) (i : Z) (l : list Z) (acc : num) :
  isNaN acc = false ->
  let res := fold_left (fun max j =>
               if negb (isNaN source.[i - j]) then Math_max max source.[i - j] else max)
             l acc in
  isNaN res = false /\ (res <? acc) = false /\
  (forall j, In j l -> isNaN source.[i - j] = false -> (res <? source.[i - j]) = false) /\
  (res = acc \/ exists j, In j l /\ isNaN source.[i - j] = false /\ res = source.[i - j]).
Proof.
  revert acc. induction l as [|j l IH]; intros acc Ha; cbn [fold_left].
  - split; [exact Ha|]. split; [apply lt_irrefl|]. split; [intros j []|now left].
  - destruct (isNaN source.[i - j]) eqn:Ex; cbn [negb].
    + destruct (IH acc Ha) as (H1 & H2 & H3 & H4).
      split; [exact H1|]. split; [exact H2|]. split.
      * intros j' [<- | Hin] Hv; [congruence | now apply H3].
      * destruct H4 as [H4 | (j' & Hin & Hv & H4)]; [now left|].
        right. exists j'. split; [now right | tauto].
    + assert (Hc : Math_max acc source.[i - j] = acc \/
                   Math_max acc source.[i - j] = source.[i - j]).
      { apply Math_max_cases. rewrite Ha, Ex. reflexivity. }
      assert (Hn : isNaN (Math_max acc source.[i - j]) = false)
        by (destruct Hc as [-> | ->]; assumption).
      destruct (IH _ Hn) as (H1 & H2 & H3 & H4).
      split; [exact H1|]. split.
      { eapply not_lt_trans; [exact H2 | apply Math_max_ge_l | exact Hn]. }
      split.
      * intros j' [<- | Hin] Hv; [|now apply H3].
        eapply not_lt_trans; [exact H2 | apply Math_max_ge_r | exact Hn].
      * destruct H4 as [H4 | (j' & Hin & Hv & H4)].
        -- rewrite H4. destruct Hc as [-> | ->]; [now left|].
           right. exists j. split; [now left | tauto].
        -- right. exists j'. split; [now right | tauto].
Qed.

Lemma lowest_fold_inv (source : list num) (i : Z) (l : list Z) (acc : num) :
  isNaN acc = false ->
  let res := fold_left (fun min j =>
               if negb (isNaN source.[i - j]) then Math_min min source.[i - j] else min)
             l acc in
  isNaN res = false /\ (acc <? res) = false /\
  (forall j, In j l -> isNaN source.[i - j] = false -> (source.[i - j] <? res) = false) /\
  (res = acc \/ exists j, In j l /\ isNaN source.[i - j] = false /\ res = source.[i - j]).
Proof.
  revert acc. induction l as [|j l IH]; intros acc Ha; cbn [fold_left].
  - split; [exact Ha|]. split; [apply lt_irrefl|]. split; [intros j []|now left].
  - destruct (isNaN source.[i - j]) eqn:Ex; cbn [negb].
    + destruct (IH acc Ha) as (H1 & H2 & H3 & H4).
      split; [exact H1|]. split; [exact H2|]. split.
      * intros j' [<- | Hin] Hv; [congruence | now apply H3].
      * destruct H4 as [H4 | (j' & Hin & Hv & H4)]; [now left|].
        right. exists j'. split; [now right | tauto].
    + assert (Hc : Math_min acc source.[i - j] = acc \/
                   Math_min acc source.[i - j] = source.[i - j]).
      { apply Math_min_cases. rewrite Ha, Ex. reflexivity. }
      assert (Hn : isNaN (Math_min acc source.[i - j]) = false)
        by (destruct Hc as [-> | ->]; assumption).
      destruct (IH _ Hn) as (H1 & H2 & H3 & H4).
      split; [exact H1|]. split.
      { eapply not_lt_trans; [apply Math_min_le_l | exact H2 | exact Hn]. }
      split.
      * intros j' [<- | Hin] Hv; [|now apply H3].
        eapply not_lt_trans; [apply Math_min_le_r | exact H2 | exact Hn].
      * destruct H4 as [H4 | (j' & Hin & Hv & H4)].
        -- rewrite H4. destruct Hc as [-> | ->]; [now left|].
           right. exists j. split; [now left | tauto].
        -- right. exists j'. split; [now right | tauto].
Qed.

Lemma highest_nth_gen (source : list num) (length : Z) (i : nat) :
  i < List.length source ->
  nth_error (highest source length) i =
  Some (if (Z.of_nat i <? length - 1)%Z then NaN
        else let max := fold_left (fun max j =>
                          if negb (isNaN source.[Z.of_nat i - j])
                          then Math_max max source.[Z.of_nat i - j] else max)
                        (counter 0 length) (- Infinity) in
             if max === - Infinity then NaN else max).
Proof.
  intros Hi. unfold highest. rewrite for_push_nth_error by lia. reflexivity.
Qed.

Lemma lowest_nth_gen (source : list num) (length : Z) (i : nat) :
  i < List.length source ->
  nth_error (lowest source length) i =
  Some (if (Z.of_nat i <? length - 1)%Z then NaN
        else let min := fold_left (fun min j =>
                          if negb (isNaN source.[Z.of_nat i - j])
                          then Math_min min source.[Z.of_nat i - j] else min)
                        (counter 0 length) Infinity in
             if min === Infinity then NaN else min).
Proof.
  intros Hi. unfold lowest. rewrite for_push_nth_error by lia. reflexivity.
Qed.

(** X24.  After the warm-up, [highest] skips the NaN of its window: its
    output is NaN, or it is one of the window's numbers and no number of the
    window is above it; and it is not NaN as soon as one value of the window
    is above [-Infinity].  [lowest] is the same with below and [Infinity]. *)
Theorem highest_lowest_are_window_extremes (source : list num) (length : Z) (i : nat) :
  (length - 1 <= Z.of_nat i)%Z -> i < List.length source ->
  (exists h, nth_error (highest source length) i = Some h /\
     (isNaN h = true \/
      ((forall j, (0 <= j < length)%Z -> isNaN source.[Z.of_nat i - j] = false ->
                  (h <? source.[Z.of_nat i - j]) = false) /\
       exists j, (0 <= j < length)%Z /\ h = source.[Z.of_nat i - j])) /\
     (forall j, (0 <= j < length)%Z -> (- Infinity <? source.[Z.of_nat i - j]) = true ->
                isNaN h = false)) /\
  (exists l, nth_error (lowest source length) i = Some l /\
     (isNaN l = true \/
      ((forall j, (0 <= j < length)%Z -> isNaN source.[Z.of_nat i - j] = false ->
                  (source.[Z.of_nat i - j] <? l) = false) /\
       exists j, (0 <= j < length)%Z /\ l = source.[Z.of_nat i - j])) /\
     (forall j, (0 <= j < length)%Z -> (source.[Z.of_nat i - j] <? Infinity) = true ->
                isNaN l = false)).
Proof.
  intros Hw Hi. split.
  - eexists. split; [apply (highest_nth_gen source length Hi)|].
    destruct (Z.ltb_spec (Z.of_nat i) (length - 1)); [lia|]. cbv zeta.
    destruct (@highest_fold_inv source (Z.of_nat i) (counter 0 length) (- Infinity)
                neg_Infinity_valid) as (H1 & H2 & H3 & H4).
    set (res := fold_left _ (counter 0 length) (- Infinity)) in *.
    split.
    + destruct (res === - Infinity) eqn:Eq; [left; apply isNaN_NaN|].
      right. split.
      * intros j Hj Hv. apply H3; [now apply in_counter | exact Hv].
      * destruct H4 as [H4 | (j & Hin & _ & H4)].
        -- rewrite H4, strict_eq_refl in Eq by apply neg_Infinity_valid. discriminate.
        -- exists j. split; [now apply in_counter | exact H4].
    + intros j Hj Hlt.
      assert (Hr : (- Infinity <? res) = true).
      { destruct (lt_cotrans _ res _ Hlt H1) as [K|K]; [exact K|].
        rewrite H3 in K; [discriminate | now apply in_counter | ].
        eapply lt_valid_r. exact Hlt. }
      rewrite (proj2 (strict_eq_lt _ _ Hr)). exact H1.
  - eexists. split; [apply (lowest_nth_gen source length Hi)|].
    destruct (Z.ltb_spec (Z.of_nat i) (length - 1)); [lia|]. cbv zeta.
    destruct (@lowest_fold_inv source (Z.of_nat i) (counter 0 length) Infinity
                Infinity_valid) as (H1 & H2 & H3 & H4).
    set (res := fold_left _ (counter 0 length) Infinity) in *.
    split.
    + destruct (res === Infinity) eqn:Eq; [left; apply isNaN_NaN|].
      right. split.
      * intros j Hj Hv. apply H3; [now apply in_counter | exact Hv].
      * destruct H4 as [H4 | (j & Hin & _ & H4)].
        -- rewrite H4, strict_eq_refl in Eq by apply Infinity_valid. discriminate.
        -- exists j. split; [now apply in_counter | exact H4].
    + intros j Hj Hlt.
      assert (Hr : (res <? Infinity) = true).
      { destruct (lt_cotrans _ res _ Hlt H1) as [K|K]; [|exact K].
        rewrite H3 in K; [discriminate | now apply in_counter | ].
        eapply lt_valid_l. exact Hlt. }
      rewrite (proj1 (strict_eq_lt _ _ Hr)). exact H1.
Qed.

End ExtremeValues.

(** ** [linreg] on a straight line (exact arithmetic) *)

Section LinregFacts.
Local Open Scope R_scope.



End LinregFacts.

(** ** [correlation] is a correlation coefficient (exact arithmetic) *)

Section CorrelationFacts.
Local Open Scope R_scope.





End CorrelationFacts.

(** ** The properties of the other functions at concrete inputs *)

Lemma ema_NaN_is_absorbing_witness :
  exists y, nth_error (ema (A:=float64) [1; nan; 2]%float 2) 2 = Some y /\
            PrimFloat.is_nan y = true.
Proof.
  apply (@ema_NaN_is_absorbing float64 float64_nan_laws [1; nan; 2]%float 2%Z 1%nat 2%nat nan);
    [reflexivity | reflexivity | lia | simpl; lia].
Defined.

Lemma windowed_average_NaN_in_window_witness :
  (exists y, nth_error (sma (A:=float64) [1; nan; 3]%float 2) 2 = Some y /\
             PrimFloat.is_nan y = true) /\
  (exists y, nth_error (wma (A:=float64) [1; nan; 3]%float 2) 2 = Some y /\
             PrimFloat.is_nan y = true).
Proof.
  apply (@windowed_average_NaN_in_window float64 float64_laws float64_nan_laws
           [1; nan; 3]%float 2%Z 2%nat 1%Z); [simpl; lia | lia | reflexivity].
Defined.

Lemma hma_warmup_witness :
  (exists y, nth_error (hma (A:=float64) Z.sqrt [1; 2; 3; 4; 5; 6]%float 4) 3 = Some y /\
             PrimFloat.is_nan y = true) /\
  hma (A:=float64) Z.sqrt [1; 2; 3; 4; 5; 6]%float 4
  = [nan; nan; nan; nan; 5; 6]%float.
Proof.
  split; [|vm_compute; reflexivity].
  apply (@hma_warmup float64 float64_laws float64_nan_laws Z.sqrt
           [1; 2; 3; 4; 5; 6]%float 4%Z 3%nat); [simpl; lia | simpl; lia].
Defined.

Lemma vwap_NaN_is_absorbing_witness :
  exists y, nth_error (vwap (A:=float64) [2; 3; 4]%float [1; 2; 3]%float [1; 3; 4]%float
                            [5; nan; 5]%float) 2 = Some y /\
            PrimFloat.is_nan y = true.
Proof.
  apply (@vwap_NaN_is_absorbing float64 float64_laws float64_nan_laws
           [2; 3; 4]%float [1; 2; 3]%float [1; 3; 4]%float [5; nan; 5]%float 1%nat 2%nat);
    [simpl; lia | reflexivity | lia | simpl; lia].
Defined.

Lemma barssince_counts_from_latest_true_bar_witness :
  nth_error (barssince (A:=float64) [false; true; false; false]) 3 = Some 2%float.
Proof.
  rewrite (@barssince_counts_from_latest_true_bar float64 float64_laws
             [false; true; false; false] 3%nat).
  - vm_compute. reflexivity.
  - intros n Hn. assert (Hc : n = 0%Z \/ n = 1%Z \/ n = 2%Z) by lia.
    destruct Hc as [-> | [-> | ->]]; split; vm_compute; reflexivity.
  - simpl. lia.
Defined.

Lemma valuewhen_reads_nth_latest_true_bar_witness :
  nth_error (valuewhen (A:=float64) [true; false; true] [10; 20; 30]%float 1) 2
  = Some 10%float /\
  valuewhen (A:=float64) [false; true; false; true] [10; 20; 30; 40]%float 0
  = [nan; 20; 20; 40]%float.
Proof.
  split; [|vm_compute; reflexivity].
  rewrite (@valuewhen_reads_nth_latest_true_bar float64 [true; false; true]
             [10; 20; 30]%float 1%Z 2%nat); [reflexivity | lia | simpl; lia].
Defined.

Lemma rising_iff_each_step_up_witness :
  nth_error (rising (A:=float64) [1; 2; 3]%float 2) 2 = Some true.
Proof.
  apply (proj2 (@rising_iff_each_step_up float64 float64_laws [1; 2; 3]%float 2%Z 2%nat
                  ltac:(simpl; lia)
                  ltac:(intros j Hj _; assert (Hc : j = 0%Z \/ j = 1%Z \/ j = 2%Z) by lia;
                        destruct Hc as [-> | [-> | ->]]; reflexivity))).
  split; [simpl; lia|].
  intros j Hj. assert (Hc : j = 1%Z \/ j = 2%Z) by lia.
  destruct Hc as [-> | ->]; reflexivity.
Defined.

Lemma rising_and_falling_only_on_NaN_witness :
  rising (A:=float64) [nan; nan]%float 1 = [false; true] /\
  falling (A:=float64) [nan; nan]%float 1 = [false; true] /\
  (PrimFloat.is_nan (get (A:=float64) [nan; nan]%float 1)
   || PrimFloat.is_nan (get (A:=float64) [nan; nan]%float (1 - 1)))%bool = true.
Proof.
  split; [reflexivity|]. split; [reflexivity|].
  apply (@rising_and_falling_only_on_NaN float64 float64_laws [nan; nan]%float 1%Z 1%nat);
    [lia | reflexivity | reflexivity].
Defined.

Lemma cross_is_symmetric_witness :
  nth_error (crossover (A:=float64) [1; 3]%float [2; 2]%float) 1
  = nth_error (crossunder (A:=float64) [2; 2]%float [1; 3]%float) 1 /\
  nth_error (cross (A:=float64) [1; 3]%float [2; 2]%float) 1
  = nth_error (cross (A:=float64) [2; 2]%float [1; 3]%float) 1.
Proof.
  apply (@cross_is_symmetric float64 [1; 3]%float [2; 2]%float 1%nat); simpl; lia.
Defined.

Lemma pivots_are_reported_rightBars_late_witness :
  nth_error (pivothigh (A:=float64) [1; 3; 2; 0; 4]%float 1 1) 2 = Some 3%float /\
  nth_error (pivotlow (A:=float64) [1; 3; 2; 0; 4]%float 1 1) 4 = Some 0%float /\
  pivothigh (A:=float64) [1; 3; 2; 0; 4]%float 1 1 = [nan; nan; 3; nan; nan]%float.
Proof.
  split; [|split; [|vm_compute; reflexivity]].
  - rewrite (proj1 (@pivots_are_reported_rightBars_late float64 [1; 3; 2; 0; 4]%float
                      1%Z 1%Z 2%nat ltac:(simpl; lia))).
    vm_compute. reflexivity.
  - rewrite (proj2 (@pivots_are_reported_rightBars_late float64 [1; 3; 2; 0; 4]%float
                      1%Z 1%Z 4%nat ltac:(simpl; lia))).
    vm_compute. reflexivity.
Defined.

Lemma extreme_bars_point_at_latest_extreme_witness :
  highestbars (A:=float64) [1; 5; 3; 5; 2]%float 3 = [nan; nan; -1; -0; -1]%float /\
  exists o, nth_error (highestbars (A:=float64) [1; 5; 3; 5; 2]%float 3) 4
            = Some (PrimFloat.opp (F64.of_Z o)) /\ (0 <= o < 3)%Z.
Proof.
  split; [vm_compute; reflexivity|].
  destruct (proj1 (@extreme_bars_point_at_latest_extreme float64 float64_laws
                     [1; 5; 3; 5; 2]%float 3%Z 4%nat ltac:(simpl; lia) ltac:(simpl; lia)
                     ltac:(intros j Hj; assert (Hc : j = 0%Z \/ j = 1%Z \/ j = 2%Z) by lia;
                           destruct Hc as [-> | [-> | ->]]; reflexivity)))
    as (o & Ho & Hr & _).
  exists o. split; [exact Ho | exact Hr].
Defined.













Lemma highest_lowest_are_window_extremes_witness :
  highest (A:=float64) [1; nan; 3; 2]%float 2 = [nan; 1; 3; 3]%float /\
  lowest (A:=float64) [1; nan; 3; 2]%float 2 = [nan; 1; 3; 2]%float /\
  exists h, nth_error (highest (A:=float64) [1; nan; 3; 2]%float 2) 2 = Some h /\
            PrimFloat.is_nan h = false.
Proof.
  split; [vm_compute; reflexivity|]. split; [vm_compute; reflexivity|].
  destruct (proj1 (@highest_lowest_are_window_extremes float64 float64_laws
                     float64_extreme_laws [1; nan; 3; 2]%float 2%Z 2%nat
                     ltac:(simpl; lia) ltac:(simpl; lia))) as (h & Eh & _ & Hv).
  exists h. split; [exact Eh|].
  apply (Hv 0%Z); [lia | reflexivity].
Defined.






Lemma roc_is_mom_over_base_witness :
  mom (A:=float64) [4; 5; 6]%float 1 = change (A:=float64) [4; 5; 6]%float 1 /\
  roc (A:=float64) [4; 0; 6; 9]%float 1 = [nan; -100; nan; 50]%float /\
  mom (A:=float64) [4; 0; 6; 9]%float 1 = [nan; -4; 6; 3]%float.
Proof.
  split; [|split; vm_compute; reflexivity].
  exact (proj1 (@roc_is_mom_over_base float64 [4; 5; 6]%float 1%Z 0%nat ltac:(simpl; lia))).
Defined.
